(** * A shallow embedding of [twitter_json_scraper.py]

    The development follows the source file top-down: the text helpers
    ([clean_tweet_text], the two regular expressions, [str.split]), the
    parsed page as BeautifulSoup presents it, [extract_tweet_data], and the
    scroll loop of [scrape_tweets] run against an explicit browser
    environment.

    Modelling conventions.
    - A Python [str] is a [string] whose characters are code points below
      256; [isspace] and [isdigit] are Python's predicates restricted to that
      range.
    - Python [int]s are unbounded: counters that start at 0 and are only
      incremented are [nat], parsed counts and [max_scrolls] are [Z].
    - Durations are Python [float]s: IEEE 754 binary64 numbers, a finite
      one held as the rational it denotes, with round-to-nearest-even
      after each operation, the infinities and NaN ([Float]). The sign
      of zero is not kept: nothing in the source looks at it.
    - A Python [set] of strings is a [gset string], the [stats] dictionary a
      [gmap string Z], the attribute dictionary of a tag a
      [gmap string string].
    - Exceptions are values of [exn]; console output is not modelled.
    - [int] is the interpreter's, with the default limit of 4300 digits
      on the strings it converts (CPython 3.11). *)

From Stdlib Require Import ZArith QArith Qround Lia Lqa Ascii String.
From stdpp Require Import base strings list gmap.

Set Warnings "-register-all,-clear-no-such-hyp".

Local Open Scope string_scope.
Local Open Scope list_scope.
Local Open Scope Z_scope.

(** ** Exceptions and the error monad *)

Inductive exn : Type :=
| KeyError (key : string)
| ValueError (msg : string)
| OverflowError (msg : string).

Inductive result (A : Type) : Type :=
| Ok (a : A)
| Raise (e : exn).
Arguments Ok {A} a.
Arguments Raise {A} e.

#[global] Instance result_ret : MRet result := λ A a, Ok a.

#[global] Instance result_bind : MBind result := λ A B k r,
  match r with
  | Ok a => k a
  | Raise e => Raise e
  end.

(** [try: ... except Exception: return None] *)
Definition try_or_None {A : Type} (r : result A) : option A :=
  match r with
  | Ok a => Some a
  | Raise _ => None
  end.

(** ** Floating point *)

Module Float.

(** A Python [float]. [Finite q] stands for the double whose value is
    [q]; the operations below only ever build values that are doubles
    from values that are. *)
Inductive float : Type :=
| Finite (q : Q)
| PosInf
| NegInf
| NaN.

(** The nearest integer, ties to the even one. *)
Definition rne (x : Q) : Z :=
  let f := Qfloor x in
  match (x - inject_Z f ?= 1 # 2)%Q with
  | Lt => f
  | Eq => if Z.even f then f else f + 1
  | Gt => f + 1
  end.

(** Every finite double is a multiple of the least positive one,
    [2^-1074]. *)
Definition grid : positive := 2 ^ 1074.

(** Rounding of [X >= 0], given and returned in units of [2^-1074]: the
    53 leading bits are kept, the [s] bits below them are rounded
    away. *)
Definition round_units (X : Q) : Z :=
  let s := Z.max 0 (Z.log2 (Qfloor X) - 52) in
  rne (X / inject_Z (2 ^ s)) * 2 ^ s.

(** The double nearest to [x], the exponent range left unbounded
    above. *)
Definition fl (x : Q) : Q :=
  if Qle_bool 0 x
  then Qred (round_units (x * inject_Z (Zpos grid)) # grid)
  else Qred (- round_units (- x * inject_Z (Zpos grid)) # grid).

Definition huge : Q := inject_Z (2 ^ 1024).

(** The result of an operation whose exact value is [x]: rounded, and
    an infinity when the rounded value does not fit. *)
Definition round (x : Q) : float :=
  let y := fl x in
  if Qle_bool huge y then PosInf
  else if Qle_bool y (- huge) then NegInf
  else Finite y.

Definition neg (x : float) : float :=
  match x with
  | Finite q => Finite (- q)
  | PosInf => NegInf
  | NegInf => PosInf
  | NaN => NaN
  end.

Definition add (x y : float) : float :=
  match x, y with
  | NaN, _ | _, NaN => NaN
  | PosInf, NegInf | NegInf, PosInf => NaN
  | PosInf, _ | _, PosInf => PosInf
  | NegInf, _ | _, NegInf => NegInf
  | Finite a, Finite b => round (a + b)
  end.

Definition sub (x y : float) : float := add x (neg y).

Definition signed_inf (negative : bool) : float :=
  if negative then NegInf else PosInf.

Definition mul (x y : float) : float :=
  match x, y with
  | NaN, _ | _, NaN => NaN
  | Finite a, Finite b => round (a * b)
  | Finite a, PosInf | PosInf, Finite a =>
      if Qeq_bool a 0 then NaN else signed_inf (negb (Qle_bool 0 a))
  | Finite a, NegInf | NegInf, Finite a =>
      if Qeq_bool a 0 then NaN else signed_inf (Qle_bool 0 a)
  | PosInf, PosInf | NegInf, NegInf => PosInf
  | PosInf, NegInf | NegInf, PosInf => NegInf
  end.

(** A number in units of [2^-1074]. *)
Definition units (x : Q) : Q := (x * inject_Z (Zpos grid))%Q.

(** The rationals that are the value of a double. *)
Definition is_double (x : Q) : Prop :=
  (fl x == x)%Q ∧ (- huge < x)%Q ∧ (x < huge)%Q.

End Float.

Abbreviation float := Float.float.
Coercion Float.Finite : Q >-> Float.float.
Bind Scope Q_scope with Float.float.

(** ** Text helpers *)

Module Text.

(** [str.isspace] on one character (code points below 256): TAB..CR,
    FS..US, SPACE, NEL and NBSP. This is also the class [\s]. *)
Definition isspace (c : ascii) : bool :=
  let n := nat_of_ascii c in
  ((9 <=? n)%nat && (n <=? 13)%nat)
  || ((28 <=? n)%nat && (n <=? 32)%nat)
  || (n =? 133)%nat || (n =? 160)%nat.

(** The class [\d] (code points below 256): the digits 0..9. *)
Definition isdigit (c : ascii) : bool :=
  let n := nat_of_ascii c in (48 <=? n)%nat && (n <=? 57)%nat.

Definition digit_value (c : ascii) : Z := Z.of_nat (nat_of_ascii c) - 48.

(** [re.sub(r'\s+', ' ', text)]: [in_run] tells that the previous
    character belonged to the whitespace run being replaced. *)
Fixpoint sub_spaces (in_run : bool) (text : string) : string :=
  match text with
  | EmptyString => EmptyString
  | String c rest =>
      if isspace c
      then (if in_run then sub_spaces true rest
            else String " " (sub_spaces true rest))
      else String c (sub_spaces false rest)
  end.

Fixpoint lstrip (text : string) : string :=
  match text with
  | EmptyString => EmptyString
  | String c rest => if isspace c then lstrip rest else text
  end.

Fixpoint rstrip (text : string) : string :=
  match text with
  | EmptyString => EmptyString
  | String c rest =>
      match rstrip rest with
      | EmptyString => if isspace c then EmptyString else String c EmptyString
      | rest' => String c rest'
      end
  end.

Definition strip (text : string) : string := rstrip (lstrip text).

(** The longest prefix made of digits. *)
Fixpoint digit_prefix (text : string) : string :=
  match text with
  | EmptyString => EmptyString
  | String c rest =>
      if isdigit c then String c (digit_prefix rest) else EmptyString
  end.

(** [re.search(r'\d+', text)]: the leftmost match, greedy; [None] when
    the pattern does not match. The result is [match.group()]. *)
Fixpoint search_digits (text : string) : option string :=
  match text with
  | EmptyString => None
  | String c rest =>
      if isdigit c then Some (String c (digit_prefix rest))
      else search_digits rest
  end.

(** [int(s)] on a run of digits, read left to right. *)
Fixpoint int_acc (acc : Z) (digits : string) : Z :=
  match digits with
  | EmptyString => acc
  | String c rest => int_acc (10 * acc + digit_value c) rest
  end.

Definition int (digits : string) : Z := int_acc 0 digits.

(** [sys.get_int_max_str_digits()]: the longest digit string [int]
    converts (CPython 3.11 and later, default setting). *)
Definition int_max_str_digits : nat := 4300.

(** [int(s)] as the interpreter runs it: a run of more than
    [int_max_str_digits] digits, leading zeros counted, raises
    [ValueError]. *)
Definition int_str (digits : string) : result Z :=
  if (int_max_str_digits <? String.length digits)%nat
  then Raise (ValueError
                "Exceeds the limit (4300 digits) for integer string conversion")
  else Ok (int digits).

(** [text.split(sep)] for a one-character separator: never empty. *)
Fixpoint split (sep : ascii) (text : string) : list string :=
  match text with
  | EmptyString => [EmptyString]
  | String c rest =>
      if Ascii.eqb c sep then EmptyString :: split sep rest
      else match split sep rest with
           | [] => [String c EmptyString]
           | w :: ws => String c w :: ws
           end
  end.

(** [text.replace(' ', '%20')] *)
Fixpoint replace_space (text : string) : string :=
  match text with
  | EmptyString => EmptyString
  | String c rest =>
      if Ascii.eqb c " " then "%20" +:+ replace_space rest
      else String c (replace_space rest)
  end.

(** Truth value of a [str]: non-empty. *)
Definition truthy (text : string) : bool :=
  match text with EmptyString => false | _ => true end.

End Text.

(** [clean_tweet_text], lines 71-74. *)
Definition clean_tweet_text (text : string) : string :=
  Text.strip (Text.sub_spaces false text).

(** ** The parsed page *)

Module Soup.

(** A node of the tree BeautifulSoup builds: a string, or a tag with its
    attribute dictionary and its children. The [BeautifulSoup] object at
    the root is itself a tag (named [[document]], no attributes). *)
Inductive PageElement : Type :=
| NavigableString (s : string)
| Tag (name : string) (attrs : gmap string string)
      (contents : list PageElement).

(** A node together with the chain of its ancestors, nearest first:
    what a [Tag] object with its [.parent] pointers gives access to. *)
Definition Element : Type := list PageElement * PageElement.

Definition attrs_of (e : PageElement) : gmap string string :=
  match e with
  | NavigableString _ => ∅
  | Tag _ a _ => a
  end.

(** [tag.parent] *)
Definition parent (t : Element) : option Element :=
  match t.1 with
  | [] => None
  | p :: up => Some (up, p)
  end.

(** [tag.get(key)] *)
Definition get (t : Element) (key : string) : option string :=
  attrs_of t.2 !! key.

(** [tag[key]]: raises [KeyError] when the attribute is absent. *)
Definition getitem (t : Element) (key : string) : result string :=
  match attrs_of t.2 !! key with
  | Some v => Ok v
  | None => Raise (KeyError key)
  end.

(** All descendants of a node in document order, each with its chain
    of ancestors. *)
Fixpoint descendants (up : list PageElement) (e : PageElement)
  : list Element :=
  match e with
  | NavigableString _ => []
  | Tag _ _ contents =>
      (fix walk (cs : list PageElement) : list Element :=
         match cs with
         | [] => []
         | c :: cs' => (e :: up, c) :: descendants (e :: up) c ++ walk cs'
         end) contents
  end.

(** Does a node match a tag name and a dictionary of required
    attribute values? *)
Definition matches (name : string) (filter : list (string * string))
    (e : PageElement) : bool :=
  match e with
  | NavigableString _ => false
  | Tag n a _ =>
      bool_decide (n = name)
      && forallb (λ kv, bool_decide (a !! kv.1 = Some kv.2)) filter
  end.

(** [tag.find_all(name, attrs)] *)
Definition find_all (name : string) (filter : list (string * string))
    (t : Element) : list Element :=
  List.filter (λ d, matches name filter d.2) (descendants t.1 t.2).

(** [tag.find(name, attrs)]: the first result of [find_all], or [None]. *)
Definition find (name : string) (filter : list (string * string))
    (t : Element) : option Element :=
  head (find_all name filter t).

(** [tag.get_text()]: the strings below the node, concatenated in
    document order. *)
Fixpoint get_text_of (e : PageElement) : string :=
  match e with
  | NavigableString s => s
  | Tag _ _ contents =>
      (fix walk (cs : list PageElement) : string :=
         match cs with
         | [] => EmptyString
         | c :: cs' => get_text_of c +:+ walk cs'
         end) contents
  end.

Definition get_text (t : Element) : string := get_text_of t.2.

(** [BeautifulSoup(page_source, 'html.parser')] seen from the outside:
    the root object has no parent. *)
Definition root (page : PageElement) : Element := ([], page).

End Soup.
Import Soup.

(** ** Post records *)

Record Tweet : Type := mkTweet {
  tweet_id : string;
  timestamp : string;
  text : string;
  replies : Z;
  retweets : Z;
  likes : Z;
  url : string
}.

(** The sentinel the source writes for an unextractable field. *)
Definition Unknown : string := "Unknown".

Definition No_text_found : string := "No text found".

(** Lines 88-93: the id is the last path segment of the link that
    encloses the time element. *)
Definition extract_tweet_id (time_element : option Element) : string :=
  match time_element with
  | Some t =>
      match parent t with
      | Some p =>
          match parent p with
          | Some g =>
              match get g "href" with
              | Some tweet_link =>
                  if Text.truthy tweet_link
                  then List.last (Text.split "/" tweet_link) EmptyString
                  else Unknown
              | None => Unknown
              end
          | None => Unknown
          end
      | None => Unknown
      end
  | None => Unknown
  end.

(** The number lines 110-111 read in the text of one element: the value
    of the leftmost run of digits, 0 without a digit. *)
Definition stat_of_text (stat_text : string) : Z :=
  match Text.search_digits stat_text with
  | Some run => Text.int run
  | None => 0
  end.

(** Lines 110-111 as they run: the conversion of line 111 raises on a
    run of digits that is too long for [int]. *)
Definition read_stat (stat_text : string) : result Z :=
  match Text.search_digits stat_text with
  | Some run => Text.int_str run
  | None => Ok 0
  end.

(** Lines 103-111: the [stats] dictionary, filled in the order replies,
    retweets, likes; the first conversion that raises ends the loop. *)
Definition extract_stats (article : Element) : result (gmap string Z) :=
  match find_all "div" [("role", "group")] article with
  | [] => Ok ∅
  | group :: _ =>
      let stats_elements := find_all "div" [] group in
      foldl (λ (so_far : result (gmap string Z)) (it : nat * string),
               stats ← so_far;
               match stats_elements !! it.1 with
               | Some el =>
                   stat_value ← read_stat (get_text el);
                   Ok (<[ it.2 := stat_value ]> stats)
               | None => Ok stats
               end)
            (Ok ∅) [(0%nat, "replies"); (1%nat, "retweets"); (2%nat, "likes")]
  end.

(** The body of the [try] block, lines 84-124. *)
Definition extract_tweet_data_body (article : Element) (username : string)
  : result Tweet :=
  let time_element := find "time" [] article in
  timestamp ← match time_element with
              | Some t => getitem t "datetime"
              | None => Ok Unknown
              end;
  let tweet_id := extract_tweet_id time_element in
  let tweet_text :=
    match find "div" [("data-testid", "tweetText")] article with
    | Some tweet_text_div => clean_tweet_text (get_text tweet_text_div)
    | None => No_text_found
    end in
  stats ← extract_stats article;
  Ok {| tweet_id := tweet_id;
        timestamp := timestamp;
        text := tweet_text;
        replies := default 0 (stats !! "replies");
        retweets := default 0 (stats !! "retweets");
        likes := default 0 (stats !! "likes");
        url := if bool_decide (tweet_id ≠ Unknown)
               then "https://twitter.com/" +:+ username +:+ "/status/"
                    +:+ tweet_id
               else Unknown |}.

(** [extract_tweet_data], lines 81-127: any exception raised in the body
    is caught and [None] is returned. *)
Definition extract_tweet_data (article : Element) (username : string)
  : option Tweet :=
  try_or_None (extract_tweet_data_body article username).

(** ** The browser and the clock *)

(** What the run does to the outside world, in order. *)
Inductive Event : Type :=
| EvGet (url : string)       (* driver.get(url) *)
| EvScrollBy (height : Z)    (* window.scrollBy(0, height) *)
| EvScrollToBottom           (* window.scrollTo(0, ...scrollHeight) *)
| EvPageSource               (* reading driver.page_source *)
| EvSleep (secs : float).    (* time.sleep(secs) *)

(** What the outside world answers. Every answer asked inside the loop is
    indexed by the value of [scroll_count] at the cycle that asks. *)
Record Env : Type := mkEnv {
  login_wall : bool;                (* check_for_login_wall(driver) *)
  timeline_loaded : bool;           (* the 10 s wait found an article *)
  page_source : nat → PageElement;  (* the parsed driver.page_source *)
  randint_300_1000 : nat → Z;       (* random.randint(300, 1000) *)
  random_nudge : nat → N;           (* the generator draw behind line 169 *)
  random_pause : nat → N            (* the generator draw behind line 204 *)
}.

(** [random.random()]: 53 random bits scaled into [0, 1). *)
Definition random (draw : N) : float :=
  Float.Finite (Z.of_N (draw mod 2 ^ 53) # (2 ^ 53)).

(** [random.uniform(a, b)] is [a + (b - a) * random()]. *)
Definition uniform (a b : float) (draw : N) : float :=
  Float.add a (Float.mul (Float.sub b a) (random draw)).

(** ** The local variables of [scrape_tweets] *)

Record State : Type := mkState {
  tweets : list Tweet;
  unique_tweet_ids : gset string;
  unique_tweet_texts : gset string;
  scroll_count : nat;
  consecutive_no_new_tweets : nat;
  new_tweets_found : nat;
  events : list Event
}.

(** Lines 131-135; [new_tweets_found] is bound later, at line 177. *)
Definition initial_state : State :=
  {| tweets := []; unique_tweet_ids := ∅; unique_tweet_texts := ∅;
     scroll_count := 0; consecutive_no_new_tweets := 0;
     new_tweets_found := 0; events := [] |}.

(** Computations over the local variables that may raise. *)
Definition M (A : Type) : Type := State → result A * State.

#[global] Instance M_ret : MRet M := λ A a st, (Ok a, st).

#[global] Instance M_bind : MBind M := λ A B k m st,
  match m st with
  | (Ok a, st') => k a st'
  | (Raise e, st') => (Raise e, st')
  end.

Definition gets {A : Type} (f : State → A) : M A := λ st, (Ok (f st), st).

Definition modify (f : State → State) : M unit := λ st, (Ok (), f st).

Definition add_event (ev : Event) (st : State) : State :=
  {| tweets := tweets st; unique_tweet_ids := unique_tweet_ids st;
     unique_tweet_texts := unique_tweet_texts st;
     scroll_count := scroll_count st;
     consecutive_no_new_tweets := consecutive_no_new_tweets st;
     new_tweets_found := new_tweets_found st;
     events := events st ++ [ev] |}.

Definition emit (ev : Event) : M unit := modify (add_event ev).

(** Why [time.sleep(secs)] refuses a length, if it does (CPython 3.11
    on a 64-bit platform). NaN raises [ValueError]. Otherwise the length
    is turned into a count of nanoseconds, a double product rounded away
    from zero to an integer; a count outside [-2^63, 2^63] raises
    [OverflowError]; the count is then cast to a signed 64-bit integer,
    and a negative one, which the cast makes of [2^63] as well, raises
    [ValueError]. The operating system refuses, beyond that, a deadline
    (the reading of the clock plus the length) of 9223372036 seconds or
    more; the clock is not modelled, and the statements below stay
    under [sleep_bound], far from it. *)
Definition sleep_refusal (secs : float) : option exn :=
  match secs with
  | Float.NaN => Some (ValueError "Invalid value NaN (not a number)")
  | _ =>
      match Float.mul secs 1000000000 with
      | Float.Finite ns =>
          if Qle_bool (inject_Z (- 2 ^ 63)) ns
             && Qle_bool ns (inject_Z (2 ^ 63))
          then if Qle_bool 0 ns && negb (Qle_bool (inject_Z (2 ^ 63)) ns)
               then None
               else Some (ValueError "sleep length must be non-negative")
          else Some (OverflowError
                       "timestamp too large to convert to C _PyTime_t")
      | _ => Some (OverflowError
                     "timestamp too large to convert to C _PyTime_t")
      end
  end.

(** [time.sleep(secs)] *)
Definition sleep (secs : float) : M unit := λ st,
  match sleep_refusal secs with
  | None => emit (EvSleep secs) st
  | Some e => (Raise e, st)
  end.

Definition set_new_tweets_found (n : nat) (st : State) : State :=
  {| tweets := tweets st; unique_tweet_ids := unique_tweet_ids st;
     unique_tweet_texts := unique_tweet_texts st;
     scroll_count := scroll_count st;
     consecutive_no_new_tweets := consecutive_no_new_tweets st;
     new_tweets_found := n;
     events := events st |}.

Definition set_scroll_count (n : nat) (st : State) : State :=
  {| tweets := tweets st; unique_tweet_ids := unique_tweet_ids st;
     unique_tweet_texts := unique_tweet_texts st;
     scroll_count := n;
     consecutive_no_new_tweets := consecutive_no_new_tweets st;
     new_tweets_found := new_tweets_found st;
     events := events st |}.

Definition set_consecutive_no_new_tweets (n : nat) (st : State) : State :=
  {| tweets := tweets st; unique_tweet_ids := unique_tweet_ids st;
     unique_tweet_texts := unique_tweet_texts st;
     scroll_count := scroll_count st;
     consecutive_no_new_tweets := n;
     new_tweets_found := new_tweets_found st;
     events := events st |}.

(** Lines 138-144. *)
Definition target_url (username : string) (search_query : option string)
  : string :=
  match search_query with
  | Some q =>
      if Text.truthy q
      then "https://x.com/search?q="
           +:+ ("from%3A" +:+ username +:+ "%20" +:+ Text.replace_space q)
           +:+ "&src=typed_query"
      else "https://x.com/" +:+ username +:+ "/with_replies"
  | None => "https://x.com/" +:+ username +:+ "/with_replies"
  end.

Section Scrape.

Variable env : Env.
Variable username : string.
Variable search_query : option string.
Variable max_scrolls : Z.
Variable scroll_pause_time : float.
Variable scroll_variation : float.

(** The body of the [for article in articles] loop, lines 180-200. *)
Definition process_article (st : State) (article : Element) : State :=
  match extract_tweet_data article username with
  | None => st
  | Some tweet_data =>
      if bool_decide (tweet_id tweet_data ≠ Unknown)
         && bool_decide (tweet_id tweet_data ∈ unique_tweet_ids st)
      then st
      else if bool_decide (text tweet_data ∈ unique_tweet_texts st)
      then st
      else
        {| tweets := tweets st ++ [tweet_data];
           unique_tweet_ids :=
             if bool_decide (tweet_id tweet_data ≠ Unknown)
             then unique_tweet_ids st ∪ {[ tweet_id tweet_data ]}
             else unique_tweet_ids st;
           unique_tweet_texts :=
             unique_tweet_texts st ∪ {[ text tweet_data ]};
           scroll_count := scroll_count st;
           consecutive_no_new_tweets := consecutive_no_new_tweets st;
           new_tweets_found := S (new_tweets_found st);
           events := events st |}
  end.

(** Lines 179-200. *)
Definition process_articles (st : State) (articles : list Element)
  : State :=
  foldl process_article st articles.

(** [random_scroll], lines 76-79. *)
Definition random_scroll (n : nat) : M unit :=
  emit (EvScrollBy (randint_300_1000 env n)).

(** The length of the pause of line 204 at the cycle that starts with
    [scroll_count = n]. *)
Definition pause_length (n : nat) : float :=
  Float.add scroll_pause_time
    (uniform (Float.neg scroll_variation) scroll_variation
       (random_pause env n)).

(** One pass through the body of the [while] loop, lines 166-220. The
    result tells whether the [break] of line 216 was taken. *)
Definition scroll_cycle : M bool :=
  n ← gets scroll_count;
  (if (n mod 10 =? 0)%nat
   then random_scroll n;; sleep (uniform 1 3 (random_nudge env n))
   else mret ());;
  emit EvPageSource;;
  let soup := root (page_source env n) in
  let articles := find_all "article" [] soup in
  modify (set_new_tweets_found 0);;
  modify (λ st, process_articles st articles);;
  emit EvScrollToBottom;;
  sleep (pause_length n);;
  modify (set_scroll_count (S n));;
  new ← gets new_tweets_found;
  idle ← gets consecutive_no_new_tweets;
  modify (set_consecutive_no_new_tweets
            (if (new =? 0)%nat then S idle else 0%nat));;
  idle' ← gets consecutive_no_new_tweets;
  mret (5 <=? idle')%nat.

(** The [while] loop, lines 165-220. [None]: the fuel ran out. *)
Fixpoint scrape_loop (fuel : nat) (st : State)
  : option (result unit * State) :=
  if bool_decide (Z.of_nat (scroll_count st) < max_scrolls) then
    match fuel with
    | O => None
    | S fuel' =>
        match scroll_cycle st with
        | (Ok true, st') => Some (Ok (), st')
        | (Ok false, st') => scrape_loop fuel' st'
        | (Raise e, st') => Some (Raise e, st')
        end
    end
  else Some (Ok (), st).

(** Lines 146-162: navigation and the wait for the timeline. The result
    tells whether the timeline loaded. *)
Definition open_timeline : M bool :=
  emit (EvGet (target_url username search_query));;
  (if login_wall env
   then sleep 45;; emit (EvGet (target_url username search_query))
   else mret ());;
  if timeline_loaded env then sleep 3;; mret true else mret false.

(** [scrape_tweets], lines 129-223: the returned list (or the
    exception that escapes) and the final values of the locals. The
    loop guard fails after at most [max_scrolls] cycles, which is the
    fuel given. *)
Definition scrape_tweets : option (result (list Tweet) * State) :=
  match open_timeline initial_state with
  | (Ok true, st) =>
      match scrape_loop (Z.to_nat max_scrolls) st with
      | Some (Ok _, st') => Some (Ok (tweets st'), st')
      | Some (Raise e, st') => Some (Raise e, st')
      | None => None
      end
  | (Ok false, st) => Some (Ok (tweets st), st)
  | (Raise e, st) => Some (Raise e, st)
  end.

End Scrape.

(** ** The configuration, lines 231-250 *)

Module Config.

(** A Python value as [json.loads] builds it. *)
Inductive Value : Type :=
| VNone
| VBool (b : bool)
| VInt (n : Z)
| VFloat (x : float)
| VStr (s : string)
| VList (items : list Value)
| VDict (fields : gmap string Value).

(** The truth value of a Python value, as [not] tests it. *)
Definition truthy (v : Value) : bool :=
  match v with
  | VNone => false
  | VBool b => b
  | VInt n => negb (n =? 0)
  | VFloat (Float.Finite x) => negb (Qeq_bool x 0)
  | VFloat _ => true
  | VStr s => Text.truthy s
  | VList items => match items with [] => false | _ => true end
  | VDict fields => negb (bool_decide (fields = ∅))
  end.

(** The exceptions [process_json_input] can leave with; [OtherError]
    stands for an exception of any other class, named. *)
Inductive error : Type :=
| ValueError (msg : string)
| AttributeError
| OtherError (name : string).

Inductive outcome (A : Type) : Type :=
| Return (a : A)
| Raised (e : error).
Arguments Return {A} a.
Arguments Raised {A} e.

#[global] Instance outcome_ret : MRet outcome := λ A a, Return a.

#[global] Instance outcome_bind : MBind outcome := λ A B k r,
  match r with
  | Return a => k a
  | Raised e => Raised e
  end.

(** [data.get(key, default)]: only a dictionary has the method. *)
Definition dict_get (data : Value) (key : string) (default_value : Value)
  : outcome Value :=
  match data with
  | VDict fields => Return (default default_value (fields !! key))
  | _ => Raised AttributeError
  end.

(** The dictionary [process_json_input] returns. *)
Record Settings : Type := mkSettings {
  username : Value;
  search_query : Value;
  max_scrolls : Value;
  scroll_pause_time : Value
}.

(** What [json.loads] does with a text: it returns the decoded value,
    raises [json.JSONDecodeError] on a text that is not JSON, or raises
    something else (a plain [ValueError] on an integer of more than 4300
    digits, a [RecursionError] on deep nesting). *)
Inductive loads_result : Type :=
| Decoded (data : Value)
| JSONDecodeError
| LoadsRaised (e : error).

Section Loads.

(** [json.loads] *)
Variable json_loads : string → loads_result.

(** [process_json_input], lines 231-250. Only the decoding error is
    caught and turned into a [ValueError]; the other exceptions leave the
    function as they are. *)
Definition process_json_input (json_input : string) : outcome Settings :=
  match json_loads json_input with
  | JSONDecodeError => Raised (ValueError "Invalid JSON format")
  | LoadsRaised e => Raised e
  | Decoded data =>
      username ← dict_get data "username" VNone;
      search_query ← dict_get data "search_query" VNone;
      max_scrolls ← dict_get data "max_scrolls" (VInt 200);
      scroll_pause_time ← dict_get data "scroll_pause_time" (VFloat (5 # 2));
      if negb (truthy username)
      then Raised (ValueError "Username is required in the JSON input")
      else Return {| username := username;
                     search_query := search_query;
                     max_scrolls := max_scrolls;
                     scroll_pause_time := scroll_pause_time |}
  end.

End Loads.

End Config.

(** * Specification-side definitions

    The vocabulary of the statements below: what the specification calls
    the first run of digits, the positional sub-elements of the statistics
    group, a readable time marker, and sample fragments and pages. *)

Module TextSpec.
Import Text.

(** Every character of a string satisfies a test. *)
Fixpoint all_chars (P : ascii → bool) (s : string) : bool :=
  match s with
  | EmptyString => true
  | String c rest => P c && all_chars P rest
  end.

Definition no_digits (s : string) : Prop :=
  all_chars (λ c, negb (isdigit c)) s = true.

Definition all_digits (s : string) : Prop := all_chars isdigit s = true.

Definition starts_with_digit (s : string) : bool :=
  match s with
  | EmptyString => false
  | String c _ => isdigit c
  end.

(** The number a string of decimal digits denotes, by position. *)
Fixpoint decimal_value (digits : string) : Z :=
  match digits with
  | EmptyString => 0
  | String c rest =>
      digit_value c * 10 ^ Z.of_nat (String.length rest)
      + decimal_value rest
  end.

End TextSpec.
Import TextSpec.

(** The value a counter must have, given the text of its sub-element:
    0 when the text has no digit, otherwise the decimal value of the
    first maximal run of digits. *)
Definition first_digit_run_value (stat_text : string) (v : Z) : Prop :=
  (no_digits stat_text → v = 0)
  ∧ (∀ pre run post,
       stat_text = pre +:+ run +:+ post → no_digits pre →
       run ≠ EmptyString → all_digits run →
       starts_with_digit post = false →
       v = decimal_value run).

(** The [i]-th [div] below the first [div role="group"] of a fragment,
    when there is one. *)
Definition stat_element (article : Element) (i : nat) : option Element :=
  match find_all "div" [("role", "group")] article with
  | [] => None
  | group :: _ => find_all "div" [] group !! i
  end.

(** What a counter must be, given its sub-element or its absence. *)
Definition counter_spec (sub : option Element) (v : Z) : Prop :=
  match sub with
  | None => v = 0
  | Some el => first_digit_run_value (get_text el) v
  end.

(** A text whose first maximal run of digits is too long for [int]. *)
Definition digits_over_limit (stat_text : string) : Prop :=
  ∃ pre run post,
    stat_text = pre +:+ run +:+ post ∧ no_digits pre
    ∧ run ≠ EmptyString ∧ all_digits run
    ∧ starts_with_digit post = false
    ∧ (Text.int_max_str_digits < String.length run)%nat.

(** One of the three statistics of a fragment cannot be converted. *)
Definition stat_overflow (article : Element) : Prop :=
  ∃ i el, (i < 3)%nat ∧ stat_element article i = Some el
          ∧ digits_over_limit (get_text el).

(** The time marker of a fragment can be read: when there is a [time]
    element, it carries a [datetime] attribute. *)
Definition time_marker_readable (article : Element) : Prop :=
  ∀ t, find "time" [] article = Some t → is_Some (get t "datetime").

(** ** The deduplication index *)

(** The index rejects a record when its id is known and already seen, or
    when its text is already seen. *)
Definition rejected (st : State) (t : Tweet) : Prop :=
  (tweet_id t ≠ Unknown ∧ tweet_id t ∈ unique_tweet_ids st)
  ∨ text t ∈ unique_tweet_texts st.

#[global] Instance rejected_dec st t : Decision (rejected st t).
Proof. unfold rejected. apply _. Defined.

(** Acceptance: the record is appended and counted, its id is recorded
    when known, its text always. *)
Definition accept (st : State) (t : Tweet) : State :=
  {| tweets := tweets st ++ [t];
     unique_tweet_ids :=
       if bool_decide (tweet_id t ≠ Unknown)
       then unique_tweet_ids st ∪ {[ tweet_id t ]}
       else unique_tweet_ids st;
     unique_tweet_texts := unique_tweet_texts st ∪ {[ text t ]};
     scroll_count := scroll_count st;
     consecutive_no_new_tweets := consecutive_no_new_tweets st;
     new_tweets_found := S (new_tweets_found st);
     events := events st |}.

(** Two records are the same logical post for the index when they share
    a known id or share their text. *)
Definition same_post (t1 t2 : Tweet) : Prop :=
  (tweet_id t1 ≠ Unknown ∧ tweet_id t1 = tweet_id t2) ∨ text t1 = text t2.

(** The index describes the accepted records: the seen texts are the
    texts of the accepted records, the seen ids their known ids. *)
Definition index_consistent (st : State) : Prop :=
  (∀ x, x ∈ unique_tweet_texts st ↔ ∃ t, t ∈ tweets st ∧ text t = x)
  ∧ (∀ x, x ∈ unique_tweet_ids st
          ↔ x ≠ Unknown ∧ ∃ t, t ∈ tweets st ∧ tweet_id t = x).

(** No logical post occurs at two positions of the accepted records. *)
Definition accepted_once (st : State) : Prop :=
  ∀ i j t1 t2,
    tweets st !! i = Some t1 → tweets st !! j = Some t2 →
    same_post t1 t2 → i = j.

(** The index of one state contains the index of another. *)
Definition index_le (st st' : State) : Prop :=
  unique_tweet_ids st ⊆ unique_tweet_ids st'
  ∧ unique_tweet_texts st ⊆ unique_tweet_texts st'.

(** A fragment the index would skip: it yields no record, or a record
    the index rejects. *)
Definition skipped (username : string) (st : State) (article : Element)
  : Prop :=
  ∀ t, extract_tweet_data article username = Some t → rejected st t.

(** ** Runs of the scroll loop *)

(** A length [time.sleep] accepts: 1e9 seconds, which leaves the
    deadline (the reading of the clock plus the length) well inside the
    2^63 nanoseconds a time value holds. *)
Definition sleep_bound : Q := inject_Z (10 ^ 9).

Definition is_page_source (ev : Event) : bool :=
  match ev with
  | EvPageSource => true
  | _ => false
  end.

(** The number of scroll cycles begun so far: each cycle reads the page
    once, at line 172. *)
Definition cycles_started (st : State) : nat :=
  length (List.filter is_page_source (events st)).

(** The idle streak after a cycle that leaves the locals [st]. *)
Definition next_idle (st : State) : nat :=
  if (new_tweets_found st =? 0)%nat
  then S (consecutive_no_new_tweets st) else 0%nat.

Section Run.

Variable env : Env.
Variable username : string.
Variable search_query : option string.
Variable scroll_pause_time : float.
Variable scroll_variation : float.

(** The fragments on the page at the cycle that starts with
    [scroll_count = n]. *)
Definition articles_at (n : nat) : list Element :=
  find_all "article" [] (root (page_source env n)).

(** The locals when the page has been read and its fragments
    processed, before the scroll of line 203. *)
Definition scanned (st : State) : State :=
  let n := scroll_count st in
  let st1 :=
    if (n mod 10 =? 0)%nat
    then add_event (EvSleep (uniform 1 3 (random_nudge env n)))
           (add_event (EvScrollBy (randint_300_1000 env n)) st)
    else st in
  process_articles username
    (set_new_tweets_found 0 (add_event EvPageSource st1))
    (articles_at n).

(** The locals when the loop is first entered. *)
Definition loop_entry : State :=
  (open_timeline env username search_query initial_state).2.

(** The locals after [n] passes through the loop body, the stopping
    tests left aside. *)
Definition after_cycles (n : nat) : State :=
  Nat.iter n
    (λ st, (scroll_cycle env username scroll_pause_time scroll_variation
              st).2)
    loop_entry.

(** The number of records newly accepted by the cycle that starts with
    [scroll_count = n]. *)
Definition new_found_at (n : nat) : nat :=
  new_tweets_found (after_cycles (S n)).

End Run.

(** ** Sample fragments *)

(** A fragment whose time marker has no [datetime]: the article holds a
    single [<time>2h</time>]. *)
Definition article_without_datetime : Element :=
  ([Tag "[document]" ∅
      [Tag "article" ∅ [Tag "time" ∅ [NavigableString "2h"]]]],
   Tag "article" ∅ [Tag "time" ∅ [NavigableString "2h"]]).

Module Samples.

(** A post as the timeline renders it: a link around the time marker,
    an optional text container, and the statistics group. *)
Definition time_link (id : string) : PageElement :=
  Tag "a" {[ "href" := "/alice/status/" +:+ id ]}
    [Tag "span" ∅
       [Tag "time" {[ "datetime" := "2024-05-01T10:00:00.000Z" ]}
          [NavigableString "2h"]]].

Definition stats_group (r1 r2 r3 : string) : PageElement :=
  Tag "div" {[ "role" := "group" ]}
    [Tag "div" ∅ [NavigableString r1];
     Tag "div" ∅ [NavigableString r2];
     Tag "div" ∅ [NavigableString r3]].

Definition post (id body r1 r2 r3 : string) : PageElement :=
  Tag "article" ∅
    [time_link id;
     Tag "div" {[ "data-testid" := "tweetText" ]} [NavigableString body];
     stats_group r1 r2 r3].

Definition textless_post (id : string) : PageElement :=
  Tag "article" ∅ [time_link id; stats_group "1" "2" "3"].

Definition document (posts : list PageElement) : PageElement :=
  Tag "[document]" ∅ [Tag "html" ∅ [Tag "body" ∅ posts]].

(** The fragments of a page made of the given posts. *)
Definition fragments (posts : list PageElement) : list Element :=
  find_all "article" [] (root (document posts)).

(** The [i]-th fragment of such a page. *)
Definition fragment (posts : list PageElement) (i : nat) : Element :=
  default (root (document posts)) (fragments posts !! i).

Definition post1 : PageElement :=
  post "101" "first  post" "1.2K replies" "" "7 likes".
Definition post2 : PageElement := post "102" "second post" "3" "4" "5".
Definition post3 : PageElement := post "103" "third post" "0" "0" "12".
(** A repost of the first text under another id. *)
Definition post4 : PageElement := post "104" "first post" "9" "9" "9".

(** One more post appears at each of the first three cycles. *)
Definition growing_page (n : nat) : PageElement :=
  match n with
  | 0%nat => document [post1]
  | 1%nat => document [post1; post2]
  | _ => document [post1; post2; post3]
  end.

(** Nothing new appears after the second cycle. *)
Definition settled_page (n : nat) : PageElement :=
  match n with
  | 0%nat => document [post1]
  | _ => document [post1; post2]
  end.

(** A browser whose random draws are all 0: every jitter is the lowest
    one, [- scroll_variation]. *)
Definition browser (pages : nat → PageElement) : Env :=
  {| login_wall := false; timeline_loaded := true;
     page_source := pages;
     randint_300_1000 := λ _, 300;
     random_nudge := λ _, 0%N;
     random_pause := λ _, 0%N |}.

(** The same browser with a timeline that never shows up. *)
Definition stalled_browser (pages : nat → PageElement) : Env :=
  {| login_wall := false; timeline_loaded := false;
     page_source := pages;
     randint_300_1000 := λ _, 300;
     random_nudge := λ _, 0%N;
     random_pause := λ _, 0%N |}.

End Samples.

(** ** Words *)

Module WordSpec.
Import Text.

(** [text.split()]: the maximal runs of characters that are not
    whitespace. *)
Fixpoint words (text : string) : list string :=
  match text with
  | EmptyString => []
  | String c rest =>
      if isspace c then words rest
      else match rest with
           | EmptyString => [String c EmptyString]
           | String d _ =>
               if isspace d then String c EmptyString :: words rest
               else match words rest with
                    | w :: ws => String c w :: ws
                    | [] => [String c EmptyString]
                    end
           end
  end.

(** [sep.join(parts)] *)
Fixpoint join (sep : string) (parts : list string) : string :=
  match parts with
  | [] => EmptyString
  | [w] => w
  | w :: ws => w +:+ sep +:+ join sep ws
  end.

(** The characters of a string that are not whitespace, in order. *)
Fixpoint visible (text : string) : string :=
  match text with
  | EmptyString => EmptyString
  | String c rest =>
      if isspace c then visible rest else String c (visible rest)
  end.

(** A word: not empty, no whitespace in it. *)
Definition is_word (w : string) : Prop :=
  w ≠ EmptyString ∧ all_chars (λ c, negb (isspace c)) w = true.

Definition starts_with_space (text : string) : bool :=
  match text with
  | EmptyString => false
  | String c _ => isspace c
  end.

End WordSpec.

(** ** Links and addresses *)

Definition no_char (x : ascii) (s : string) : Prop :=
  all_chars (λ c, negb (Ascii.eqb c x)) s = true.

(** [id] is what follows the last ["/"] of [link] (all of [link] when it
    has none). *)
Definition last_segment_of (link id : string) : Prop :=
  no_char "/" id
  ∧ (link = id ∨ ∃ pre, link = pre +:+ "/" +:+ id).

(** The [href] of the element two levels above the time element of a
    fragment: [time_element.parent.parent.get('href')]. *)
Definition enclosing_link (article : Element) : option string :=
  t ← find "time" [] article;
  p ← parent t;
  g ← parent p;
  get g "href".

(** The address of a post. *)
Definition status_url (username id : string) : string :=
  "https://twitter.com/" +:+ username +:+ "/status/" +:+ id.

(** ** More sample fragments *)

Module MoreSamples.

(** A post with a text but no time element: its id cannot be read. *)
Definition anonymous_post (body : string) : PageElement :=
  Tag "article" ∅
    [Tag "div" {[ "data-testid" := "tweetText" ]} [NavigableString body]].

(** A post whose link ends with a slash. *)
Definition slash_post : PageElement :=
  Tag "article" ∅
    [Tag "a" {[ "href" := "/alice/status/" ]}
       [Tag "span" ∅
          [Tag "time" {[ "datetime" := "2024-05-01T10:00:00.000Z" ]} []]]].

(** A run of [n] nines. *)
Fixpoint nines (n : nat) : string :=
  match n with
  | O => EmptyString
  | S n' => String "9" (nines n')
  end.

(** A post whose first counter is a run of 4301 digits. *)
Definition long_count_post : PageElement :=
  Samples.post "301" "big numbers" (nines 4301) "2" "3".

End MoreSamples.

(** ** Counting the index *)

(** The index has one text per accepted record, one id per accepted
    record with a known id, and never holds the sentinel id. *)
Definition index_counts (st : State) : Prop :=
  size (unique_tweet_texts st) = length (tweets st)
  ∧ size (unique_tweet_ids st)
    = length (filter (λ t, tweet_id t ≠ Unknown) (tweets st))
  ∧ Unknown ∉ unique_tweet_ids st.

(** ** The trace of a run *)

Definition is_scroll_by (ev : Event) : bool :=
  match ev with
  | EvScrollBy _ => true
  | _ => false
  end.

(** The number of random scrolls ([random_scroll], line 168) so far. *)
Definition nudges (st : State) : nat :=
  length (List.filter is_scroll_by (events st)).

Definition is_get (ev : Event) : bool :=
  match ev with
  | EvGet _ => true
  | _ => false
  end.

Definition is_scroll_to_bottom (ev : Event) : bool :=
  match ev with
  | EvScrollToBottom => true
  | _ => false
  end.

(** How many events of a trace pass a test. *)
Definition count_events (test : Event → bool) (st : State) : nat :=
  length (List.filter test (events st)).

Section Trace.

Variable env : Env.
Variable scroll_pause_time : float.
Variable scroll_variation : float.

(** What one cycle that starts with [scroll_count = n] adds to the
    trace; [slept] tells whether the pause of line 204 was accepted. *)
Definition cycle_trace (n : nat) (slept : bool) : list Event :=
  (if (n mod 10 =? 0)%nat
   then [EvScrollBy (randint_300_1000 env n);
         EvSleep (uniform 1 3 (random_nudge env n))]
   else [])
  ++ [EvPageSource; EvScrollToBottom]
  ++ (if slept
      then [EvSleep (pause_length env scroll_pause_time scroll_variation n)]
      else []).

End Trace.

Section Idle.

Variable env : Env.
Variable username : string.
Variable search_query : option string.
Variable scroll_pause_time : float.
Variable scroll_variation : float.

(** After [n] cycles the idle streak is at most [n], and the accepted
    records have not changed since the streak began. *)
Definition idle_since (n : nat) : Prop :=
  let st :=
    after_cycles env username search_query scroll_pause_time
      scroll_variation n in
  (consecutive_no_new_tweets st ≤ n)%nat
  ∧ tweets (after_cycles env username search_query scroll_pause_time
              scroll_variation (n - consecutive_no_new_tweets st))
    = tweets st.

End Idle.

(** * Properties *)

(** ** Floating point *)

Module FloatFacts.
Import Float.

Lemma rne_cases x :
  let f := Qfloor x in
  (rne x = f ∨ rne x = f + 1)
  ∧ (rne x = f → (x - inject_Z f <= 1 # 2)%Q)
  ∧ (rne x = f + 1 → (1 # 2 <= x - inject_Z f)%Q).
Proof.
  unfold rne. cbn zeta.
  destruct (Qcompare_spec (x - inject_Z (Qfloor x)) (1 # 2)) as [H|H|H].
  - destruct (Z.even (Qfloor x)).
    + split; [now left|]. split; intros; try lia. rewrite H. lra.
    + split; [now right|]. split; intros; try lia. rewrite H. lra.
  - split; [now left|]. split; intros; try lia. lra.
  - split; [now right|]. split; intros; try lia. lra.
Qed.

Lemma rne_mono x y : (x <= y)%Q → rne x <= rne y.
Proof.
  intros Hxy.
  pose proof (Qfloor_resp_le x y Hxy) as Hf.
  destruct (Z.eq_dec (Qfloor x) (Qfloor y)) as [E|E].
  - unfold rne. rewrite E.
    destruct (Qcompare_spec (x - inject_Z (Qfloor y)) (1 # 2)) as [H|H|H];
      destruct (Qcompare_spec (y - inject_Z (Qfloor y)) (1 # 2))
        as [H'|H'|H'];
      destruct (Z.even (Qfloor y)); try lia; exfalso; lra.
  - destruct (rne_cases x) as ([Hx|Hx] & _), (rne_cases y) as ([Hy|Hy] & _);
      lia.
Qed.

Lemma rne_Z n : rne (inject_Z n) = n.
Proof.
  unfold rne. rewrite Qfloor_Z.
  destruct (Qcompare_spec (inject_Z n - inject_Z n) (1 # 2)) as [H|H|H];
    try reflexivity; exfalso; lra.
Qed.

Lemma Qfloor_nonneg X : (0 <= X)%Q → 0 ≤ Qfloor X.
Proof.
  intros H. change 0 with (Qfloor 0). by apply Qfloor_resp_le.
Qed.

Lemma inject_Z_pow2_pos s : 0 ≤ s → (0 < inject_Z (2 ^ s))%Q.
Proof.
  intros Hs. change 0%Q with (inject_Z 0). rewrite <- Zlt_Qlt.
  by apply Z.pow_pos_nonneg.
Qed.

Lemma round_units_bounds X :
  (0 <= X)%Q →
  let s := Z.max 0 (Z.log2 (Qfloor X) - 52) in
  0 ≤ round_units X ≤ 2 ^ (53 + s)
  ∧ (1 ≤ s → 2 ^ (52 + s) ≤ round_units X).
Proof.
  intros HX s. unfold round_units. fold s.
  assert (Hs : 0 ≤ s) by (unfold s; lia).
  pose proof (Qfloor_nonneg X HX) as HN.
  pose proof (inject_Z_pow2_pos s Hs) as Hpos.
  assert (H2s : 0 < 2 ^ s) by (by apply Z.pow_pos_nonneg).
  split; [split|].
  - apply Z.mul_nonneg_nonneg; [|lia].
    rewrite <- (rne_Z 0). apply rne_mono.
    apply Qle_shift_div_l; [done|]. by rewrite Qmult_0_l.
  - rewrite Z.pow_add_r by lia.
    apply Z.mul_le_mono_nonneg_r; [lia|].
    rewrite <- (rne_Z (2 ^ 53)). apply rne_mono.
    apply Qle_shift_div_r; [done|].
    rewrite <- inject_Z_mult, <- Z.pow_add_r by lia.
    apply Qlt_le_weak.
    eapply Qlt_le_trans; [apply Qlt_floor|].
    rewrite <- Zle_Qle.
    destruct (Z.eq_dec (Qfloor X) 0) as [E|E].
    + rewrite E. assert (0 < 2 ^ (53 + s)) by (apply Z.pow_pos_nonneg; lia).
      lia.
    + destruct (Z.log2_spec (Qfloor X)) as [_ Hlt]; [lia|].
      assert (2 ^ Z.succ (Z.log2 (Qfloor X)) ≤ 2 ^ (53 + s))
        by (apply Z.pow_le_mono_r; unfold s; lia).
      lia.
  - intros H1.
    assert (Hlog : Z.log2 (Qfloor X) = 52 + s) by (unfold s in *; lia).
    assert (HNpos : 0 < Qfloor X).
    { destruct (Z.le_gt_cases (Qfloor X) 0) as [Hle|]; [|done].
      apply Z.log2_nonpos in Hle. lia. }
    rewrite Z.pow_add_r by lia.
    apply Z.mul_le_mono_nonneg_r; [lia|].
    rewrite <- (rne_Z (2 ^ 52)). apply rne_mono.
    apply Qle_shift_div_l; [done|].
    rewrite <- inject_Z_mult, <- Z.pow_add_r by lia.
    eapply Qle_trans; [|apply Qfloor_le].
    rewrite <- Zle_Qle. rewrite <- Hlog.
    by apply Z.log2_spec.
Qed.

Lemma round_units_mono X Y :
  (0 <= X)%Q → (X <= Y)%Q → round_units X ≤ round_units Y.
Proof.
  intros HX HXY.
  assert (HY : (0 <= Y)%Q) by lra.
  pose proof (round_units_bounds X HX) as [[_ HXu] _].
  pose proof (round_units_bounds Y HY) as [_ HYl].
  cbn zeta in *.
  pose proof (Qfloor_nonneg X HX) as HNX.
  pose proof (Qfloor_resp_le X Y HXY) as HN.
  pose proof (Z.log2_le_mono _ _ HN) as Hlog.
  set (sX := Z.max 0 (Z.log2 (Qfloor X) - 52)) in *.
  set (sY := Z.max 0 (Z.log2 (Qfloor Y) - 52)) in *.
  assert (HsX : 0 ≤ sX) by (unfold sX; lia).
  destruct (Z.eq_dec sX sY) as [E|E].
  - unfold round_units. fold sX sY. rewrite <- E.
    apply Z.mul_le_mono_nonneg_r; [by apply Z.pow_nonneg|].
    apply rne_mono. unfold Qdiv.
    apply Qmult_le_compat_r; [done|].
    apply Qinv_le_0_compat, Qlt_le_weak. by apply inject_Z_pow2_pos.
  - assert (Hlt : sX + 1 ≤ sY) by (unfold sX, sY in *; lia).
    specialize (HYl ltac:(lia)).
    assert (2 ^ (53 + sX) ≤ 2 ^ (52 + sY))
      by (apply Z.pow_le_mono_r; lia).
    lia.
Qed.

Lemma units_pos : (0 < inject_Z (Zpos grid))%Q.
Proof. done. Qed.

Lemma units_mono x y : (x <= y)%Q → (units x <= units y)%Q.
Proof.
  intros H. unfold units. apply Qmult_le_compat_r; [done|].
  apply Qlt_le_weak, units_pos.
Qed.

Lemma units_nonneg x : (0 <= x)%Q → (0 <= units x)%Q.
Proof.
  intros H. unfold units. apply Qmult_le_0_compat; [done|].
  apply Qlt_le_weak, units_pos.
Qed.

Lemma fl_nonneg_eq x :
  (0 <= x)%Q → (fl x == round_units (units x) # grid)%Q.
Proof.
  intros H. unfold fl. apply Qle_bool_iff in H. rewrite H.
  apply Qred_correct.
Qed.

Lemma fl_neg_eq x :
  (x < 0)%Q → (fl x == - (round_units (units (- x)) # grid))%Q.
Proof.
  intros H. unfold fl.
  destruct (Qle_bool 0 x) eqn:E; [apply Qle_bool_iff in E; lra|].
  rewrite Qred_correct. reflexivity.
Qed.

Lemma over_grid_le a b : a ≤ b → (a # grid <= b # grid)%Q.
Proof.
  intros H. unfold Qle. cbn [Qnum Qden].
  by apply Z.mul_le_mono_nonneg_r.
Qed.

Lemma over_grid_nonneg a : 0 ≤ a → (0 <= a # grid)%Q.
Proof. intros H. unfold Qle. cbn [Qnum Qden]. lia. Qed.

Lemma over_grid_nonpos a : a ≤ 0 → (a # grid <= 0)%Q.
Proof. intros H. unfold Qle. cbn [Qnum Qden]. lia. Qed.

Lemma fl_nonneg x : (0 <= x)%Q → (0 <= fl x)%Q.
Proof.
  intros H. rewrite fl_nonneg_eq by done.
  apply over_grid_nonneg. by apply round_units_bounds, units_nonneg.
Qed.

Lemma fl_nonpos x : (x <= 0)%Q → (fl x <= 0)%Q.
Proof.
  intros H. destruct (Qlt_le_dec x 0) as [Hx|Hx].
  - rewrite fl_neg_eq by done.
    assert (0 <= round_units (units (- x)) # grid)%Q; [|lra].
    apply over_grid_nonneg. apply round_units_bounds, units_nonneg. lra.
  - rewrite fl_nonneg_eq by done.
    apply over_grid_nonpos.
    assert (units x <= 0)%Q.
    { unfold units. assert (x == 0)%Q as -> by lra. by rewrite Qmult_0_l. }
    pose proof (round_units_mono (units x) 0 (units_nonneg x Hx) H0).
    by change (round_units 0) with 0 in H1.
Qed.

(** Rounding is monotone. *)
Lemma fl_mono x y : (x <= y)%Q → (fl x <= fl y)%Q.
Proof.
  intros H.
  destruct (Qlt_le_dec x 0) as [Hx|Hx], (Qlt_le_dec y 0) as [Hy|Hy].
  - rewrite (fl_neg_eq x), (fl_neg_eq y) by done.
    assert (round_units (units (- y)) # grid
            <= round_units (units (- x)) # grid)%Q; [|lra].
    apply over_grid_le, round_units_mono.
    + apply units_nonneg. lra.
    + apply units_mono. lra.
  - eapply Qle_trans; [apply fl_nonpos | apply fl_nonneg]; lra.
  - lra.
  - rewrite (fl_nonneg_eq x), (fl_nonneg_eq y) by done.
    apply over_grid_le, round_units_mono;
      [by apply units_nonneg | by apply units_mono].
Qed.

(** Rounding depends on the value only. *)
Lemma fl_comp x y : (x == y)%Q → (fl x == fl y)%Q.
Proof.
  intros H. apply Qle_antisym; apply fl_mono; lra.
Qed.

#[global] Instance fl_proper : Proper (Qeq ==> Qeq) fl.
Proof. intros x y. apply fl_comp. Qed.

Lemma fl_opp x : (fl (- x) == - fl x)%Q.
Proof.
  destruct (Qlt_le_dec x 0) as [Hx|Hx].
  - rewrite (fl_neg_eq x) by done. rewrite fl_nonneg_eq by lra. lra.
  - destruct (Qlt_le_dec 0 x) as [Hp|Hz].
    + rewrite (fl_neg_eq (- x)) by lra. rewrite (fl_nonneg_eq x) by done.
      assert (E : (- - x == x)%Q) by lra.
      assert (round_units (units (- - x)) = round_units (units x)) as ->;
        [|reflexivity].
      apply Z.le_antisymm; apply round_units_mono;
        (apply units_nonneg; lra) || (apply units_mono; lra).
    + assert (E : (x == 0)%Q) by lra.
      rewrite (fl_comp (- x) 0), (fl_comp x 0) by lra. done.
Qed.

(** A positive multiple of the least double rounds to a positive
    number. *)
Lemma fl_pos_on_grid x m : (x == m # grid)%Q → (0 < x)%Q → (0 < fl x)%Q.
Proof.
  intros E Hx. rewrite fl_nonneg_eq by lra.
  assert (Hm : 1 ≤ m).
  { rewrite E in Hx. unfold Qlt in Hx. cbn in Hx. lia. }
  assert (1 ≤ round_units (units x)).
  { change 1 with (round_units 1) at 1. apply round_units_mono; [done|].
    unfold units. rewrite E. unfold Qle, Qmult. cbn [Qnum Qden].
    rewrite Z.mul_1_l, Z.mul_1_r, Pos.mul_1_r.
    change (Qnum (inject_Z (Z.pos grid))) with (Z.pos grid). nia. }
  unfold Qlt. cbn [Qnum Qden]. lia.
Qed.

Lemma fl_on_grid x : ∃ m, (fl x == m # grid)%Q.
Proof.
  destruct (Qlt_le_dec x 0) as [Hx|Hx].
  - exists (- round_units (units (- x))). by rewrite fl_neg_eq.
  - exists (round_units (units x)). by rewrite fl_nonneg_eq.
Qed.

Lemma on_grid_plus x y m n :
  (x == m # grid)%Q → (y == n # grid)%Q → (x + y == (m + n) # grid)%Q.
Proof.
  intros -> ->. unfold Qeq, Qplus. cbn [Qnum Qden].
  rewrite Pos2Z.inj_mul. ring.
Qed.

Lemma huge_large : (1180591620717411303424 # 1 < huge)%Q.
Proof. by vm_compute. Qed.

Lemma round_finite x :
  (- huge < fl x)%Q → (fl x < huge)%Q → round x = Finite (fl x).
Proof.
  intros H1 H2. unfold round. cbv zeta.
  destruct (Qle_bool huge (fl x)) eqn:E1;
    [apply Qle_bool_iff in E1; lra|].
  destruct (Qle_bool (fl x) (- huge)) eqn:E2;
    [apply Qle_bool_iff in E2; lra|].
  done.
Qed.

(** An operation whose exact value lies between two numbers that round
    to moderate values gives a finite result between those values. *)
Lemma round_between x lo hi :
  (lo <= x)%Q → (x <= hi)%Q →
  (- (1180591620717411303424 # 1) <= fl lo)%Q →
  (fl hi <= 1180591620717411303424 # 1)%Q →
  round x = Finite (fl x) ∧ (fl lo <= fl x)%Q ∧ (fl x <= fl hi)%Q.
Proof.
  intros H1 H2 H3 H4.
  pose proof (fl_mono _ _ H1). pose proof (fl_mono _ _ H2).
  pose proof huge_large.
  split; [apply round_finite; lra|]. by split.
Qed.

Lemma is_double_fl x : is_double x → (fl x == x)%Q.
Proof. by intros [? _]. Qed.

Lemma is_double_on_grid x : is_double x → ∃ m, (x == m # grid)%Q.
Proof.
  intros [E _]. destruct (fl_on_grid x) as [m Hm]. exists m.
  by rewrite <- E.
Qed.

End FloatFacts.
Import FloatFacts.

(** ** Text helpers *)

Module TextFacts.
Import Text TextSpec.

Lemma digit_value_nonneg c : isdigit c = true → 0 ≤ digit_value c ≤ 9.
Proof.
  unfold isdigit, digit_value. intros H.
  apply andb_true_iff in H as [H1 H2].
  apply Nat.leb_le in H1, H2. lia.
Qed.

Lemma int_acc_decimal digits : ∀ acc,
  int_acc acc digits
  = acc * 10 ^ Z.of_nat (String.length digits) + decimal_value digits.
Proof.
  induction digits as [|c rest IH]; intros acc; simpl String.length.
  - simpl. lia.
  - cbn [int_acc decimal_value]. rewrite IH.
    rewrite Nat2Z.inj_succ, Z.pow_succ_r by lia. ring.
Qed.

Lemma int_decimal digits : int digits = decimal_value digits.
Proof. unfold int. rewrite int_acc_decimal. lia. Qed.

Lemma decimal_value_nonneg digits :
  all_digits digits → 0 ≤ decimal_value digits.
Proof.
  unfold all_digits.
  induction digits as [|c rest IH]; cbn [all_chars decimal_value];
    intros H; [lia|].
  apply andb_true_iff in H as [Hc Hr].
  pose proof (digit_value_nonneg c Hc).
  specialize (IH Hr).
  assert (0 ≤ 10 ^ Z.of_nat (String.length rest))
    by (apply Z.pow_nonneg; lia).
  nia.
Qed.

Lemma digit_prefix_all_digits s : all_digits (digit_prefix s).
Proof.
  unfold all_digits. induction s as [|c rest IH]; simpl; [done|].
  destruct (isdigit c) eqn:Hc; simpl; [|done]. by rewrite Hc.
Qed.

(** The digits read off the front of [run +:+ post] are [run] itself
    when [run] is made of digits and [post] does not go on with one. *)
Lemma digit_prefix_app run post :
  all_digits run → starts_with_digit post = false →
  digit_prefix (run +:+ post) = run.
Proof.
  unfold all_digits. induction run as [|c rest IH]; simpl; intros Hr Hp.
  - destruct post as [|d post]; simpl in *; [done|]. by rewrite Hp.
  - apply andb_true_iff in Hr as [Hc Hr]. rewrite Hc. f_equal. by apply IH.
Qed.

Lemma search_digits_no_digits s : no_digits s → search_digits s = None.
Proof.
  unfold no_digits. induction s as [|c rest IH]; simpl; [done|].
  intros H. apply andb_true_iff in H as [Hc Hr].
  apply negb_true_iff in Hc. rewrite Hc. by apply IH.
Qed.

Lemma search_digits_first_run pre run post :
  no_digits pre → run ≠ EmptyString → all_digits run →
  starts_with_digit post = false →
  search_digits (pre +:+ run +:+ post) = Some run.
Proof.
  unfold no_digits. intros Hpre Hne Hrun Hpost.
  induction pre as [|c rest IH]; simpl in *.
  - destruct run as [|d run]; [done|]. simpl.
    unfold all_digits in Hrun. simpl in Hrun.
    apply andb_true_iff in Hrun as [Hd Hrun]. rewrite Hd.
    by rewrite digit_prefix_app.
  - apply andb_true_iff in Hpre as [Hc Hr].
    apply negb_true_iff in Hc. rewrite Hc. by apply IH.
Qed.

(** Every string either has no digit at all or splits around its first
    maximal run of digits. *)
Lemma first_run_exists s :
  no_digits s
  ∨ ∃ pre run post, s = pre +:+ run +:+ post ∧ no_digits pre
      ∧ run ≠ EmptyString ∧ all_digits run
      ∧ starts_with_digit post = false.
Proof.
  unfold no_digits. induction s as [|c rest IH]; [by left|].
  destruct (isdigit c) eqn:Hc.
  - right. clear IH.
    assert (∃ run post, rest = run +:+ post ∧ all_digits run
                        ∧ starts_with_digit post = false)
      as (run & post & -> & Hrun & Hpost).
    { clear. unfold all_digits. induction rest as [|d rest IH].
      - by exists EmptyString, EmptyString.
      - destruct (isdigit d) eqn:Hd.
        + destruct IH as (run & post & -> & Hrun & Hpost).
          exists (String d run), post. simpl. by rewrite Hd, Hrun.
        + exists EmptyString, (String d rest). simpl. by rewrite Hd. }
    exists EmptyString, (String c run), post. repeat split; try done.
    unfold all_digits in *. simpl. by rewrite Hc, Hrun.
  - destruct IH as [IH|(pre & run & post & -> & Hpre & Hne & Hrun & Hpost)].
    + left. simpl. by rewrite Hc, IH.
    + right. exists (String c pre), run, post. repeat split; try done.
      simpl. by rewrite Hc, Hpre.
Qed.

End TextFacts.
Import TextFacts.

(** ** The record extractor *)

Lemma stat_of_text_first_run stat_text :
  first_digit_run_value stat_text (stat_of_text stat_text).
Proof.
  unfold stat_of_text. split.
  - intros H. by rewrite search_digits_no_digits.
  - intros pre run post -> Hpre Hne Hrun Hpost.
    rewrite search_digits_first_run by done. apply int_decimal.
Qed.

(** [digits_over_limit] in terms of the regular expression search. *)
Lemma digits_over_limit_search stat_text :
  digits_over_limit stat_text
  ↔ ∃ run, Text.search_digits stat_text = Some run
           ∧ (Text.int_max_str_digits < String.length run)%nat.
Proof.
  split.
  - intros (pre & run & post & -> & Hpre & Hne & Hrun & Hpost & Hlen).
    exists run. by rewrite search_digits_first_run.
  - intros (run & Hs & Hlen).
    destruct (first_run_exists stat_text)
      as [Hn|(pre & run' & post & -> & Hpre & Hne & Hrun & Hpost)].
    + rewrite search_digits_no_digits in Hs by done. done.
    + rewrite search_digits_first_run in Hs by done. injection Hs as ->.
      by exists pre, run, post.
Qed.

(** The conversion of line 111 either gives the value of the first run
    of digits or raises, the latter exactly on a run that is too long. *)
Lemma read_stat_cases stat_text :
  (read_stat stat_text = Ok (stat_of_text stat_text)
   ∧ ¬ digits_over_limit stat_text)
  ∨ (∃ e, read_stat stat_text = Raise e)
    ∧ digits_over_limit stat_text.
Proof.
  unfold read_stat, stat_of_text, Text.int_str.
  rewrite digits_over_limit_search.
  destruct (Text.search_digits stat_text) as [run|].
  - destruct (Nat.ltb_spec Text.int_max_str_digits (String.length run)).
    + right. split; [by eexists|]. by exists run.
    + left. split; [done|]. intros (run' & [= <-] & ?). lia.
  - left. split; [done|]. by intros (? & ? & _).
Qed.

(** The text "1.2K replies" is read as 1; a run of 4301 digits is
    refused. *)
Example read_stat_abbreviated : read_stat "1.2K replies" = Ok 1.
Proof. reflexivity. Qed.

Example read_stat_long_run :
  read_stat ("likes: " +:+ MoreSamples.nines 4301)
  = Raise (ValueError
             "Exceeds the limit (4300 digits) for integer string conversion").
Proof. by vm_compute. Qed.

(** The [stats] dictionary holds, for each position that has an
    element, the value read in it; filling it raises exactly when one of
    the three conversions does. *)
Lemma extract_stats_cases article :
  (∃ stats, extract_stats article = Ok stats
     ∧ ¬ stat_overflow article
     ∧ stats !! "replies"
       = (λ el, stat_of_text (get_text el)) <$> stat_element article 0
     ∧ stats !! "retweets"
       = (λ el, stat_of_text (get_text el)) <$> stat_element article 1
     ∧ stats !! "likes"
       = (λ el, stat_of_text (get_text el)) <$> stat_element article 2)
  ∨ (∃ e, extract_stats article = Raise e) ∧ stat_overflow article.
Proof.
  unfold stat_overflow, extract_stats, stat_element.
  destruct (find_all "div" [("role", "group")] article) as [|group ?].
  { left. exists ∅. split_and!; try done. by intros (i & el & _ & [=] & _). }
  cbn [foldl fst snd mbind result_bind].
  assert (Hno : ∀ o0 o1 o2 : option Element,
            (∀ el, o0 = Some el → ¬ digits_over_limit (get_text el)) →
            (∀ el, o1 = Some el → ¬ digits_over_limit (get_text el)) →
            (∀ el, o2 = Some el → ¬ digits_over_limit (get_text el)) →
            find_all "div" [] group !! 0%nat = o0 →
            find_all "div" [] group !! 1%nat = o1 →
            find_all "div" [] group !! 2%nat = o2 →
            ¬ ∃ i el, (i < 3)%nat ∧ find_all "div" [] group !! i = Some el
                      ∧ digits_over_limit (get_text el)).
  { intros o0 o1 o2 H0 H1 H2 E0 E1 E2 (i & el & Hi & Hel & Hov).
    assert (i = 0 ∨ i = 1 ∨ i = 2)%nat as [-> | [-> | ->]] by lia.
    - eapply H0; [|done]. congruence.
    - eapply H1; [|done]. congruence.
    - eapply H2; [|done]. congruence. }
  destruct (find_all "div" [] group !! 0%nat) as [e0|] eqn:E0.
  - destruct (read_stat_cases (get_text e0)) as [[-> N0]|[[x ->] O0]];
      cbn [mbind result_bind].
    2:{ right. split; [by eexists|]. exists 0%nat, e0.
        split_and!; [lia|done|done]. }
    destruct (find_all "div" [] group !! 1%nat) as [e1|] eqn:E1.
    + destruct (read_stat_cases (get_text e1)) as [[-> N1]|[[x ->] O1]];
        cbn [mbind result_bind].
      2:{ right. split; [by eexists|]. exists 1%nat, e1.
          split_and!; [lia|done|done]. }
      destruct (find_all "div" [] group !! 2%nat) as [e2|] eqn:E2.
      * destruct (read_stat_cases (get_text e2)) as [[-> N2]|[[x ->] O2]];
          cbn [mbind result_bind].
        2:{ right. split; [by eexists|]. exists 2%nat, e2.
            split_and!; [lia|done|done]. }
        left. eexists. split; [done|].
        split; [apply (λ a b c, Hno _ _ _ a b c eq_refl eq_refl eq_refl);
                 intros ? ?; by simplify_eq|].
        cbn [fmap option_fmap option_map]. by simplify_map_eq.
      * left. eexists. split; [done|].
        split; [apply (λ a b c, Hno _ _ _ a b c eq_refl eq_refl eq_refl);
                 intros ? ?; by simplify_eq|].
        cbn [fmap option_fmap option_map]. by simplify_map_eq.
    + destruct (find_all "div" [] group !! 2%nat) as [e2|] eqn:E2.
      * destruct (read_stat_cases (get_text e2)) as [[-> N2]|[[x ->] O2]];
          cbn [mbind result_bind].
        2:{ right. split; [by eexists|]. exists 2%nat, e2.
            split_and!; [lia|done|done]. }
        left. eexists. split; [done|].
        split; [apply (λ a b c, Hno _ _ _ a b c eq_refl eq_refl eq_refl);
                 intros ? ?; by simplify_eq|].
        cbn [fmap option_fmap option_map]. by simplify_map_eq.
      * left. eexists. split; [done|].
        split; [apply (λ a b c, Hno _ _ _ a b c eq_refl eq_refl eq_refl);
                 intros ? ?; by simplify_eq|].
        cbn [fmap option_fmap option_map]. by simplify_map_eq.
  - destruct (find_all "div" [] group !! 1%nat) as [e1|] eqn:E1.
    + destruct (read_stat_cases (get_text e1)) as [[-> N1]|[[x ->] O1]];
        cbn [mbind result_bind].
      2:{ right. split; [by eexists|]. exists 1%nat, e1.
          split_and!; [lia|done|done]. }
      destruct (find_all "div" [] group !! 2%nat) as [e2|] eqn:E2.
      * destruct (read_stat_cases (get_text e2)) as [[-> N2]|[[x ->] O2]];
          cbn [mbind result_bind].
        2:{ right. split; [by eexists|]. exists 2%nat, e2.
            split_and!; [lia|done|done]. }
        left. eexists. split; [done|].
        split; [apply (λ a b c, Hno _ _ _ a b c eq_refl eq_refl eq_refl);
                 intros ? ?; by simplify_eq|].
        cbn [fmap option_fmap option_map]. by simplify_map_eq.
      * left. eexists. split; [done|].
        split; [apply (λ a b c, Hno _ _ _ a b c eq_refl eq_refl eq_refl);
                 intros ? ?; by simplify_eq|].
        cbn [fmap option_fmap option_map]. by simplify_map_eq.
    + destruct (find_all "div" [] group !! 2%nat) as [e2|] eqn:E2.
      * destruct (read_stat_cases (get_text e2)) as [[-> N2]|[[x ->] O2]];
          cbn [mbind result_bind].
        2:{ right. split; [by eexists|]. exists 2%nat, e2.
            split_and!; [lia|done|done]. }
        left. eexists. split; [done|].
        split; [apply (λ a b c, Hno _ _ _ a b c eq_refl eq_refl eq_refl);
                 intros ? ?; by simplify_eq|].
        cbn [fmap option_fmap option_map]. by simplify_map_eq.
      * left. eexists. split; [done|].
        split; [apply (λ a b c, Hno _ _ _ a b c eq_refl eq_refl eq_refl);
                 intros ? ?; by simplify_eq|].
        cbn [fmap option_fmap option_map]. by simplify_map_eq.
Qed.

(** The record [extract_tweet_data] builds, field by field. *)
Lemma extract_tweet_data_Some article username t :
  extract_tweet_data article username = Some t →
  timestamp t = match find "time" [] article with
                | Some e => default Unknown (get e "datetime")
                | None => Unknown
                end
  ∧ tweet_id t = extract_tweet_id (find "time" [] article)
  ∧ text t = match find "div" [("data-testid", "tweetText")] article with
             | Some d => clean_tweet_text (get_text d)
             | None => No_text_found
             end
  ∧ replies t
    = default 0 ((λ el, stat_of_text (get_text el))
                   <$> stat_element article 0)
  ∧ retweets t
    = default 0 ((λ el, stat_of_text (get_text el))
                   <$> stat_element article 1)
  ∧ likes t
    = default 0 ((λ el, stat_of_text (get_text el))
                   <$> stat_element article 2).
Proof.
  unfold extract_tweet_data, extract_tweet_data_body.
  destruct (extract_stats_cases article)
    as [(stats & -> & _ & <- & <- & <-)|[[e ->] _]].
  - destruct (find "time" [] article) as [e|]; cbn [mbind result_bind].
    + unfold getitem, get. destruct (attrs_of e.2 !! "datetime"); [|done].
      cbn [try_or_None mbind result_bind]. by intros [= <-].
    + cbn [try_or_None]. by intros [= <-].
  - destruct (find "time" [] article) as [e'|]; cbn [mbind result_bind];
      [|done].
    unfold getitem. by destruct (attrs_of e'.2 !! "datetime").
Qed.

(** Extraction fails exactly when there is a [time] element without a
    [datetime] attribute, or when a statistic cannot be converted. *)
Lemma extract_tweet_data_None article username :
  extract_tweet_data article username = None
  ↔ (∃ t, find "time" [] article = Some t ∧ get t "datetime" = None)
    ∨ stat_overflow article.
Proof.
  unfold extract_tweet_data, extract_tweet_data_body.
  destruct (extract_stats_cases article)
    as [(stats & -> & Hno & _)|[[x ->] Hov]].
  - destruct (find "time" [] article) as [e|]; cbn [mbind result_bind].
    + unfold getitem, get. destruct (attrs_of e.2 !! "datetime") eqn:He;
        cbn [try_or_None mbind result_bind].
      * split; [done|]. intros [(t & [= <-] & Ht)|?]; [congruence|done].
      * split; [|done]. intros _. left. by exists e.
    + cbn [try_or_None]. split; [done|].
      by intros [(t & ? & _)|?].
  - split; [by right|]. intros _.
    destruct (find "time" [] article) as [e'|]; cbn [mbind result_bind];
      [|done].
    unfold getitem. by destruct (attrs_of e'.2 !! "datetime").
Qed.

Lemma extract_tweet_data_readable article username :
  time_marker_readable article → ¬ stat_overflow article →
  is_Some (extract_tweet_data article username).
Proof.
  intros Hr Hno.
  destruct (extract_tweet_data article username) eqn:E; [done|].
  apply extract_tweet_data_None in E as [(t & Ht & Hd)|?]; [|done].
  destruct (Hr t Ht) as [? ?]. congruence.
Qed.

(** The address is built from the id, or is the sentinel. *)
Lemma extract_tweet_data_url article username t :
  extract_tweet_data article username = Some t →
  url t = if bool_decide (tweet_id t ≠ Unknown)
          then "https://twitter.com/" +:+ username +:+ "/status/"
               +:+ tweet_id t
          else Unknown.
Proof.
  unfold extract_tweet_data, extract_tweet_data_body.
  destruct (extract_stats article) as [stats|x].
  - destruct (find "time" [] article) as [e|]; cbn [mbind result_bind].
    + unfold getitem. destruct (attrs_of e.2 !! "datetime"); [|done].
      cbn [try_or_None mbind result_bind]. by intros [= <-].
    + cbn [try_or_None]. by intros [= <-].
  - destruct (find "time" [] article) as [e'|]; cbn [mbind result_bind];
      [|done].
    unfold getitem. by destruct (attrs_of e'.2 !! "datetime").
Qed.

(** With no [time] element at all the record, when there is one, has
    the sentinel for the timestamp, the id and the address; and there is
    one unless a statistic cannot be converted. *)
Lemma extract_tweet_data_no_time article username :
  find "time" [] article = None →
  (∀ t, extract_tweet_data article username = Some t →
        timestamp t = Unknown ∧ tweet_id t = Unknown ∧ url t = Unknown)
  ∧ (¬ stat_overflow article →
     is_Some (extract_tweet_data article username)).
Proof.
  intros Hf. split.
  - intros t Ht. pose proof (extract_tweet_data_url _ _ _ Ht) as Hu.
    apply extract_tweet_data_Some in Ht as (H1 & H2 & _).
    rewrite Hf in H1, H2. cbn in H2. rewrite H2 in Hu.
    by rewrite bool_decide_eq_false_2 in Hu by (intros ?; done).
  - intros Hno. apply extract_tweet_data_readable; [|done].
    intros t Ht. congruence.
Qed.

(** Whitespace runs, newlines included, collapse to one space and the
    ends are trimmed. *)
Example clean_tweet_text_collapses :
  clean_tweet_text
    ("a" +:+ String "010" (String "010" " b   c") +:+ String "009" " ")
  = "a b c".
Proof. reflexivity. Qed.

(** The address is built from the subject and the id, unless the id is
    unknown. *)
Example extract_tweet_data_sample :
  extract_tweet_data (Samples.fragment [Samples.post1] 0) "alice"
  = Some {| tweet_id := "101"; timestamp := "2024-05-01T10:00:00.000Z";
            text := "first post"; replies := 1; retweets := 0; likes := 7;
            url := "https://twitter.com/alice/status/101" |}.
Proof. reflexivity. Qed.

(** ** The deduplication step *)

Section Dedup.

Variable username : string.

Lemma process_article_unfold st article :
  process_article username st article
  = match extract_tweet_data article username with
    | None => st
    | Some t => if decide (rejected st t) then st else accept st t
    end.
Proof.
  unfold process_article.
  destruct (extract_tweet_data article username) as [t|]; [|done].
  unfold accept.
  case_decide as Hr; unfold rejected in Hr;
    repeat case_bool_decide; cbn [andb]; try done; exfalso; tauto.
Qed.

Lemma process_article_failed st article :
  extract_tweet_data article username = None →
  process_article username st article = st.
Proof. intros H. by rewrite process_article_unfold, H. Qed.

Lemma process_article_rejected st article t :
  extract_tweet_data article username = Some t → rejected st t →
  process_article username st article = st.
Proof.
  intros H Hr. rewrite process_article_unfold, H. by rewrite decide_True.
Qed.

Lemma process_article_accepted st article t :
  extract_tweet_data article username = Some t → ¬ rejected st t →
  process_article username st article = accept st t.
Proof.
  intros H Hr. rewrite process_article_unfold, H. by rewrite decide_False.
Qed.

Lemma process_article_skipped st article :
  skipped username st article →
  process_article username st article = st.
Proof.
  intros Hs. destruct (extract_tweet_data article username) as [t|] eqn:E.
  - eapply process_article_rejected; eauto.
  - by apply process_article_failed.
Qed.

Lemma index_le_refl st : index_le st st.
Proof. by split. Qed.

Lemma index_le_trans st1 st2 st3 :
  index_le st1 st2 → index_le st2 st3 → index_le st1 st3.
Proof. unfold index_le. set_solver. Qed.

Lemma index_le_accept st t : index_le st (accept st t).
Proof.
  unfold index_le, accept; cbn. case_bool_decide; set_solver.
Qed.

Lemma rejected_accept st t : rejected (accept st t) t.
Proof. right. unfold accept; cbn. set_solver. Qed.

Lemma rejected_mono st st' t :
  index_le st st' → rejected st t → rejected st' t.
Proof. unfold index_le, rejected. set_solver. Qed.

Lemma skipped_mono st st' article :
  index_le st st' → skipped username st article →
  skipped username st' article.
Proof. intros Hle Hs t Ht. eapply rejected_mono; eauto. Qed.

Lemma process_article_index_le st article :
  index_le st (process_article username st article).
Proof.
  rewrite process_article_unfold.
  destruct (extract_tweet_data article username) as [t|];
    [|apply index_le_refl].
  case_decide; [apply index_le_refl | apply index_le_accept].
Qed.

(** Once processed, a fragment is one the index skips. *)
Lemma process_article_skipped_after st article :
  skipped username (process_article username st article) article.
Proof.
  intros t Ht. rewrite process_article_unfold, Ht.
  case_decide; [done | apply rejected_accept].
Qed.

Lemma process_articles_cons st article articles :
  process_articles username st (article :: articles)
  = process_articles username (process_article username st article)
      articles.
Proof. done. Qed.

Lemma process_articles_app st l1 l2 :
  process_articles username st (l1 ++ l2)
  = process_articles username (process_articles username st l1) l2.
Proof. apply foldl_app. Qed.

Lemma process_articles_index_le articles : ∀ st,
  index_le st (process_articles username st articles).
Proof.
  induction articles as [|a l IH]; intros st; [apply index_le_refl|].
  rewrite process_articles_cons.
  eapply index_le_trans; [apply process_article_index_le | apply IH].
Qed.

Lemma process_articles_skipped articles : ∀ st,
  Forall (skipped username st) articles →
  process_articles username st articles = st.
Proof.
  induction articles as [|a l IH]; intros st Hall; [done|].
  apply Forall_cons in Hall as [Ha Hl].
  rewrite process_articles_cons, process_article_skipped by done.
  by apply IH.
Qed.

Lemma process_articles_skipped_after articles : ∀ st,
  Forall (skipped username (process_articles username st articles))
    articles.
Proof.
  induction articles as [|a l IH]; intros st; [constructor|].
  rewrite process_articles_cons. constructor; [|apply IH].
  eapply skipped_mono; [apply process_articles_index_le|].
  apply process_article_skipped_after.
Qed.

(** A second pass over the same fragments changes nothing. *)
Lemma process_articles_idempotent st articles :
  process_articles username (process_articles username st articles)
    articles
  = process_articles username st articles.
Proof.
  apply process_articles_skipped, process_articles_skipped_after.
Qed.

(** *** The index describes the accepted records *)

Lemma index_consistent_initial : index_consistent initial_state.
Proof.
  split; intros x; cbn; set_solver.
Qed.

Lemma accepted_once_initial : accepted_once initial_state.
Proof. intros i j t1 t2 H. by destruct i. Qed.

Lemma index_consistent_accept st t :
  index_consistent st → index_consistent (accept st t).
Proof.
  intros [Htx Hid]. split; intros x; unfold accept; cbn.
  - rewrite elem_of_union, elem_of_singleton, Htx.
    setoid_rewrite elem_of_app. setoid_rewrite list_elem_of_singleton.
    naive_solver.
  - case_bool_decide as Hk.
    + rewrite elem_of_union, elem_of_singleton, Hid.
      setoid_rewrite elem_of_app. setoid_rewrite list_elem_of_singleton.
      naive_solver.
    + rewrite Hid.
      setoid_rewrite elem_of_app. setoid_rewrite list_elem_of_singleton.
      split; [naive_solver|].
      intros (Hx & t' & [Ht'| ->] & He); [naive_solver|].
      congruence.
Qed.

Lemma same_post_sym t1 t2 : same_post t1 t2 → same_post t2 t1.
Proof.
  unfold same_post. intros [[Hk He]|He]; [left|by right].
  split; congruence.
Qed.

(** A record of the accepted list that is the same post as [t] makes
    the index reject [t]. *)
Lemma same_post_rejected st t t' :
  index_consistent st → t' ∈ tweets st → same_post t' t → rejected st t.
Proof.
  intros [Htx Hid] Hin [[Hk He]|He]; [left|right].
  - split; [congruence|]. apply Hid. split; [congruence|]. eauto.
  - apply Htx. eauto.
Qed.

Lemma rejected_same_post st t :
  index_consistent st → rejected st t →
  ∃ t', t' ∈ tweets st ∧ same_post t' t.
Proof.
  intros [Htx Hid] [[Hk Hi]|Ht].
  - apply Hid in Hi as (_ & t' & Hin & He). exists t'. split; [done|].
    left. split; congruence.
  - apply Htx in Ht as (t' & Hin & He). exists t'. split; [done|].
    by right.
Qed.

Lemma accepted_once_accept st t :
  index_consistent st → ¬ rejected st t →
  accepted_once st → accepted_once (accept st t).
Proof.
  intros Hc Hr Ho i j t1 t2. unfold accept; cbn.
  intros H1 H2 Hs.
  apply lookup_snoc_Some in H1 as [[Hi H1]|[Hi <-]];
    apply lookup_snoc_Some in H2 as [[Hj H2]|[Hj <-]].
  - eauto.
  - exfalso. apply Hr. eapply same_post_rejected; eauto.
    by eapply list_elem_of_lookup_2.
  - exfalso. apply Hr. eapply same_post_rejected; eauto using same_post_sym.
    by eapply list_elem_of_lookup_2.
  - congruence.
Qed.

Lemma process_article_consistent st article :
  index_consistent st ∧ accepted_once st →
  index_consistent (process_article username st article)
  ∧ accepted_once (process_article username st article).
Proof.
  intros [Hc Ho]. rewrite process_article_unfold.
  destruct (extract_tweet_data article username) as [t|]; [|done].
  case_decide; [done|].
  split; [by apply index_consistent_accept | by apply accepted_once_accept].
Qed.

Lemma process_articles_consistent articles : ∀ st,
  index_consistent st ∧ accepted_once st →
  index_consistent (process_articles username st articles)
  ∧ accepted_once (process_articles username st articles).
Proof.
  induction articles as [|a l IH]; intros st H; [done|].
  rewrite process_articles_cons. by apply IH, process_article_consistent.
Qed.

(** *** The accepted records only grow, in the order of the page *)

Lemma process_article_tweets st article :
  tweets (process_article username st article)
  = tweets st
    ++ match extract_tweet_data article username with
       | Some t => if decide (rejected st t) then [] else [t]
       | None => []
       end.
Proof.
  rewrite process_article_unfold.
  destruct (extract_tweet_data article username) as [t|];
    [|by rewrite app_nil_r].
  case_decide; [by rewrite app_nil_r | done].
Qed.

Lemma process_articles_tweets articles : ∀ st,
  ∃ new, tweets (process_articles username st articles) = tweets st ++ new
         ∧ new `sublist_of`
             omap (λ a, extract_tweet_data a username) articles
         ∧ new_tweets_found (process_articles username st articles)
           = (new_tweets_found st + length new)%nat.
Proof.
  induction articles as [|a l IH]; intros st.
  - exists []. cbn. rewrite app_nil_r. split; [done|]. split; [done|lia].
  - rewrite process_articles_cons.
    destruct (IH (process_article username st a)) as (new & -> & Hsub & ->).
    rewrite process_article_unfold. cbn [omap list_omap].
    destruct (extract_tweet_data a username) as [t|].
    + case_decide.
      * exists new. split; [done|]. split; [by apply sublist_cons|done].
      * exists (t :: new). unfold accept; cbn.
        rewrite <- app_assoc. split; [done|].
        split; [by apply sublist_skip|lia].
    + by exists new.
Qed.

Lemma process_articles_prefix st articles :
  tweets st `prefix_of` tweets (process_articles username st articles).
Proof.
  destruct (process_articles_tweets articles st) as (new & -> & _).
  by apply prefix_app_r.
Qed.

End Dedup.

(** ** Pauses *)

Lemma random_range draw :
  ∃ r, random draw = Float.Finite r ∧ (0 <= r)%Q ∧ (r < 1)%Q.
Proof.
  unfold random. eexists. split; [reflexivity|].
  unfold Qle, Qlt. cbn [Qnum Qden].
  assert (H := N.mod_upper_bound draw (2 ^ 53) ltac:(done)).
  change (2 ^ 53)%N with 9007199254740992%N in *.
  change (2 ^ 53)%positive with 9007199254740992%positive.
  generalize dependent (draw `mod` 9007199254740992)%N. intros x H.
  split; lia.
Qed.

(** The roundings of the constants met below. *)
Lemma fl_0 : (Float.fl 0 == 0)%Q.
Proof. by vm_compute. Qed.

Lemma fl_1 : (Float.fl 1 == 1)%Q.
Proof. by vm_compute. Qed.

Lemma fl_2 : (Float.fl 2 == 2)%Q.
Proof. by vm_compute. Qed.

Lemma fl_3 : (Float.fl 3 == 3)%Q.
Proof. by vm_compute. Qed.

Lemma fl_2e9 : (Float.fl (2000000000 # 1) == 2000000000 # 1)%Q.
Proof. by vm_compute. Qed.

Lemma fl_3e9 : (Float.fl (3000000000 # 1) == 3000000000 # 1)%Q.
Proof. by vm_compute. Qed.

Lemma fl_3e18 :
  (Float.fl (3000000000000000000 # 1) == 3000000000000000000 # 1)%Q.
Proof. by vm_compute. Qed.

Lemma fl_minus_3e18 :
  (Float.fl (- (3000000000000000000 # 1)) == - (3000000000000000000 # 1))%Q.
Proof. by vm_compute. Qed.

(** A billion times the least positive double is still positive once
    rounded. *)
Lemma fl_least_ns : (0 < Float.fl (1000000000 # Float.grid))%Q.
Proof. by vm_compute. Qed.

Lemma sleep_bound_value : (sleep_bound == 1000000000 # 1)%Q.
Proof. reflexivity. Qed.

(** [random.uniform(1.0, 3.0)] lies between 1 and 3, ends included. *)
Lemma uniform_1_3 draw :
  ∃ y, uniform 1 3 draw = Float.Finite y ∧ (1 <= y)%Q ∧ (y <= 3)%Q.
Proof.
  destruct (random_range draw) as (r & Hr & H0 & H1).
  unfold uniform. rewrite Hr.
  assert (Float.sub 3 1 = Float.Finite 2) as -> by (by vm_compute).
  change (Float.mul (Float.Finite 2) (Float.Finite r))
    with (Float.round (2 * r)).
  pose proof fl_0. pose proof fl_1. pose proof fl_2. pose proof fl_3.
  destruct (round_between (2 * r) 0 2) as (-> & Hl & Hu); [lra..|].
  change (Float.add (Float.Finite 1) (Float.Finite (Float.fl (2 * r))))
    with (Float.round (1 + Float.fl (2 * r))).
  destruct (round_between (1 + Float.fl (2 * r)) 1 3) as (-> & Hl' & Hu');
    [lra..|].
  eexists. split; [reflexivity|]. lra.
Qed.

(** Lengths from 0 to 3e9 seconds are accepted. *)
Lemma sleep_refusal_None secs :
  (0 <= secs)%Q → (secs <= 3000000000 # 1)%Q →
  sleep_refusal (Float.Finite secs) = None.
Proof.
  intros H0 H1. unfold sleep_refusal.
  change (Float.mul (Float.Finite secs) (Float.Finite 1000000000))
    with (Float.round (secs * 1000000000)).
  pose proof fl_0. pose proof fl_3e18.
  destruct (round_between (secs * 1000000000) 0 (3000000000000000000 # 1))
    as (-> & Hl & Hu); [lra..|].
  change (inject_Z (2 ^ 63)) with (9223372036854775808 # 1)%Q.
  change (inject_Z (- 2 ^ 63)) with (-9223372036854775808 # 1)%Q.
  destruct (Qle_bool (-9223372036854775808 # 1) _) eqn:E1.
  2:{ exfalso. apply not_true_iff_false in E1. apply E1.
      apply Qle_bool_iff. lra. }
  destruct (Qle_bool _ (9223372036854775808 # 1)) eqn:E2.
  2:{ exfalso. apply not_true_iff_false in E2. apply E2.
      apply Qle_bool_iff. lra. }
  destruct (Qle_bool 0 _) eqn:E3.
  2:{ exfalso. apply not_true_iff_false in E3. apply E3.
      apply Qle_bool_iff. lra. }
  destruct (Qle_bool (9223372036854775808 # 1) _) eqn:E4; [|done].
  apply Qle_bool_iff in E4. lra.
Qed.

(** Negative doubles down to -3e9 seconds raise [ValueError]. *)
Lemma sleep_refusal_negative secs m :
  (secs == m # Float.grid)%Q → (secs < 0)%Q →
  (- (3000000000 # 1) <= secs)%Q →
  sleep_refusal (Float.Finite secs)
  = Some (ValueError "sleep length must be non-negative").
Proof.
  intros Hm H0 H1. unfold sleep_refusal.
  change (Float.mul (Float.Finite secs) (Float.Finite 1000000000))
    with (Float.round (secs * 1000000000)).
  pose proof fl_minus_3e18 as Hc. pose proof fl_least_ns as Hns.
  assert (Hle : (secs * 1000000000 <= - (1000000000 # Float.grid))%Q).
  { assert (m ≤ -1) by (rewrite Hm in H0; unfold Qlt in H0; cbn in H0; lia).
    rewrite Hm. unfold Qle, Qmult, Qopp. cbn [Qnum Qden].
    rewrite Pos.mul_1_r. nia. }
  pose proof (fl_opp (1000000000 # Float.grid)) as Hopp.
  destruct (round_between (secs * 1000000000)
              (- (3000000000000000000 # 1)) (- (1000000000 # Float.grid)))
    as (-> & Hl & Hu); [lra | done | lra | lra |].
  change (inject_Z (2 ^ 63)) with (9223372036854775808 # 1)%Q.
  change (inject_Z (- 2 ^ 63)) with (-9223372036854775808 # 1)%Q.
  destruct (Qle_bool (-9223372036854775808 # 1) _) eqn:E1.
  2:{ exfalso. apply not_true_iff_false in E1. apply E1.
      apply Qle_bool_iff. lra. }
  destruct (Qle_bool _ (9223372036854775808 # 1)) eqn:E2.
  2:{ exfalso. apply not_true_iff_false in E2. apply E2.
      apply Qle_bool_iff. lra. }
  destruct (Qle_bool 0 _) eqn:E3; [|done].
  apply Qle_bool_iff in E3. lra.
Qed.

Lemma sleep_ok secs st :
  sleep_refusal secs = None →
  sleep secs st = (Ok (), add_event (EvSleep secs) st).
Proof. intros H. unfold sleep. by rewrite H. Qed.

Lemma sleep_raise secs e st :
  sleep_refusal secs = Some e → sleep secs st = (Raise e, st).
Proof. intros H. unfold sleep. by rewrite H. Qed.

(** The pause of line 169 is never refused. *)
Lemma nudge_sleep_ok draw st :
  sleep (uniform 1 3 draw) st
  = (Ok (), add_event (EvSleep (uniform 1 3 draw)) st).
Proof.
  apply sleep_ok. destruct (uniform_1_3 draw) as (y & -> & H1 & H3).
  apply sleep_refusal_None; lra.
Qed.

(** The pauses before the loop are accepted. *)
Lemma sleep_45 st : sleep 45 st = (Ok (), add_event (EvSleep 45) st).
Proof. apply sleep_ok. by vm_compute. Qed.

Lemma sleep_3 st : sleep 3 st = (Ok (), add_event (EvSleep 3) st).
Proof. apply sleep_ok. by vm_compute. Qed.

Section PauseLength.

Variable env : Env.
Variable base : Q.
Variable variation : Q.
Variable n : nat.

Hypothesis base_double : Float.is_double base.
Hypothesis variation_double : Float.is_double variation.
Hypothesis variation_nonneg : (0 <= variation)%Q.
Hypothesis variation_bounded : (variation <= sleep_bound)%Q.
Hypothesis base_nonneg : (0 <= base)%Q.
Hypothesis base_bounded : (base <= sleep_bound)%Q.

(** The jitter of line 204: a double between [- variation] and 2e9,
    equal to [- variation] when the draw is the lowest. *)
Lemma jitter_range :
  ∃ j m,
    uniform (Float.neg variation) variation (random_pause env n)
    = Float.Finite j
    ∧ (j == m # Float.grid)%Q
    ∧ (- variation <= j)%Q ∧ (j <= 2000000000 # 1)%Q
    ∧ ((random_pause env n mod 2 ^ 53 = 0)%N → (j == - variation)%Q).
Proof.
  destruct (random_range (random_pause env n)) as (r & Hr & H0 & H1).
  pose proof sleep_bound_value as Hb.
  pose proof fl_0. pose proof fl_2e9.
  pose proof (is_double_fl _ variation_double) as Hv.
  pose proof (fl_opp variation) as Hopp.
  unfold uniform. rewrite Hr.
  change (Float.sub (Float.Finite variation)
            (Float.neg (Float.Finite variation)))
    with (Float.round (variation + - - variation)).
  destruct (round_between (variation + - - variation) 0 (2000000000 # 1))
    as (-> & Hl & Hu); [lra..|].
  set (w := Float.fl (variation + - - variation)) in *.
  change (Float.mul (Float.Finite w) (Float.Finite r))
    with (Float.round (w * r)).
  destruct (round_between (w * r) 0 (2000000000 # 1))
    as (-> & Hl2 & Hu2); [nra | nra | lra | lra |].
  set (y := Float.fl (w * r)) in *.
  change (Float.add (Float.neg (Float.Finite variation)) (Float.Finite y))
    with (Float.round (- variation + y)).
  destruct (round_between (- variation + y) (- variation) (2000000000 # 1))
    as (-> & Hl3 & Hu3); [lra..|].
  destruct (fl_on_grid (- variation + y)) as [m Hm].
  eexists _, m. split; [reflexivity|]. split; [done|].
  split; [lra|]. split; [lra|].
  intros Hdraw.
  assert (Hr0 : (r == 0)%Q).
  { unfold random in Hr. rewrite Hdraw in Hr. by injection Hr as <-. }
  assert (Hy : (y == 0)%Q).
  { unfold y. rewrite (fl_comp (w * r) 0); [done|]. rewrite Hr0. ring. }
  rewrite (fl_comp (- variation + y) (- variation)); lra.
Qed.

End PauseLength.

(** With a variation between 0 and the base pause, and their sum within
    [sleep_bound], the pause of line 204 is a double that is not
    negative, positive when the variation is below the base pause. *)
Lemma pause_in_range env base variation n :
  Float.is_double base → Float.is_double variation →
  (0 <= variation)%Q → (variation <= base)%Q →
  (base + variation <= sleep_bound)%Q →
  ∃ p, pause_length env base variation n = Float.Finite p
       ∧ (0 <= p)%Q ∧ (p <= 3000000000 # 1)%Q
       ∧ ((variation < base)%Q → (0 < p)%Q).
Proof.
  intros Hdb Hdv Hv Hle Hb.
  pose proof sleep_bound_value as Hsb.
  destruct (jitter_range env variation n Hdv Hv ltac:(lra))
    as (j & m & Hj & Hm & Hjl & Hju & _).
  unfold pause_length. rewrite Hj.
  change (Float.add (Float.Finite base) (Float.Finite j))
    with (Float.round (base + j)).
  pose proof fl_0. pose proof fl_3e9.
  destruct (round_between (base + j) 0 (3000000000 # 1))
    as (-> & Hl & Hu); [lra..|].
  eexists. split; [reflexivity|]. split; [lra|]. split; [lra|].
  intros Hlt. destruct (is_double_on_grid _ Hdb) as [mb Hmb].
  apply (fl_pos_on_grid _ (mb + m)); [by apply on_grid_plus | lra].
Qed.

Lemma pause_accepted env base variation n :
  Float.is_double base → Float.is_double variation →
  (0 <= variation)%Q → (variation <= base)%Q →
  (base + variation <= sleep_bound)%Q →
  sleep_refusal (pause_length env base variation n) = None.
Proof.
  intros Hdb Hdv Hv Hle Hb.
  destruct (pause_in_range env base variation n Hdb Hdv Hv Hle Hb)
    as (p & -> & H0 & H1 & _).
  by apply sleep_refusal_None.
Qed.

(** With a variation above the base pause, the lowest draw gives a
    negative pause, which is refused. *)
Lemma pause_lowest_draw env base variation n :
  Float.is_double base → Float.is_double variation →
  (0 <= base)%Q → (base < variation)%Q → (variation <= sleep_bound)%Q →
  (random_pause env n mod 2 ^ 53 = 0)%N →
  ∃ p, pause_length env base variation n = Float.Finite p
       ∧ (p < 0)%Q
       ∧ sleep_refusal (pause_length env base variation n)
         = Some (ValueError "sleep length must be non-negative").
Proof.
  intros Hdb Hdv Hb Hlt Hv Hdraw.
  pose proof sleep_bound_value as Hsb.
  destruct (jitter_range env variation n Hdv ltac:(lra) Hv)
    as (j & m & Hj & Hm & Hjl & Hju & Hj0).
  specialize (Hj0 Hdraw).
  unfold pause_length. rewrite Hj.
  change (Float.add (Float.Finite base) (Float.Finite j))
    with (Float.round (base + j)).
  assert (Hc : (Float.fl (- (1000000000 # 1)) == - (1000000000 # 1))%Q)
    by (by vm_compute).
  pose proof fl_0.
  destruct (round_between (base + j) (- (1000000000 # 1)) 0)
    as (-> & Hl & Hu); [lra..|].
  destruct (is_double_on_grid _ Hdb) as [mb Hmb].
  assert (Hneg : (Float.fl (base + j) < 0)%Q).
  { pose proof (fl_opp (base + j)) as Hopp.
    assert (0 < Float.fl (- (base + j)))%Q; [|lra].
    apply (fl_pos_on_grid _ (- (mb + m))); [|lra].
    rewrite (on_grid_plus base j mb m) by done.
    unfold Qeq, Qopp. cbn [Qnum Qden]. ring. }
  eexists. split; [reflexivity|]. split; [done|].
  destruct (fl_on_grid (base + j)) as [mp Hmp].
  apply (sleep_refusal_negative _ mp); [done | done | lra].
Qed.

(** ** One scroll cycle *)

Section Cycle.

Variable env : Env.
Variable username : string.
Variable scroll_pause_time : float.
Variable scroll_variation : float.

Local Abbreviation cycle :=
  (scroll_cycle env username scroll_pause_time scroll_variation).
Local Abbreviation pause :=
  (pause_length env scroll_pause_time scroll_variation).
Local Abbreviation scan := (scanned env username).

Lemma process_article_frame st article :
  scroll_count (process_article username st article) = scroll_count st
  ∧ consecutive_no_new_tweets (process_article username st article)
    = consecutive_no_new_tweets st
  ∧ events (process_article username st article) = events st.
Proof.
  rewrite process_article_unfold.
  destruct (extract_tweet_data article username); [|done].
  by case_decide.
Qed.

Lemma process_articles_frame articles : ∀ st,
  scroll_count (process_articles username st articles) = scroll_count st
  ∧ consecutive_no_new_tweets (process_articles username st articles)
    = consecutive_no_new_tweets st
  ∧ events (process_articles username st articles) = events st.
Proof.
  induction articles as [|a l IH]; intros st; [done|].
  rewrite process_articles_cons.
  destruct (IH (process_article username st a)) as (-> & -> & ->).
  apply process_article_frame.
Qed.

Lemma scroll_cycle_eq st :
  cycle st
  = let n := scroll_count st in
    let st2 := add_event EvScrollToBottom (scan st) in
    match sleep_refusal (pause n) with
    | None =>
        (Ok (5 <=? next_idle st2)%nat,
         set_consecutive_no_new_tweets (next_idle st2)
           (set_scroll_count (S n)
              (add_event (EvSleep (pause n)) st2)))
    | Some e => (Raise e, st2)
    end.
Proof.
  unfold scroll_cycle, scanned, articles_at, random_scroll, emit.
  unfold mbind, M_bind, gets, modify, mret, M_ret. cbn beta iota zeta.
  destruct (scroll_count st mod 10 =? 0)%nat.
  - rewrite nudge_sleep_ok. unfold sleep.
    destruct (sleep_refusal _); reflexivity.
  - unfold sleep. destruct (sleep_refusal _); reflexivity.
Qed.

(** *** What a scan leaves behind *)

Lemma scanned_frame st :
  scroll_count (scan st) = scroll_count st
  ∧ consecutive_no_new_tweets (scan st) = consecutive_no_new_tweets st.
Proof.
  unfold scanned.
  match goal with |- context [process_articles _ ?s ?l] =>
    destruct (process_articles_frame l s) as (-> & -> & _) end.
  by destruct (_ =? _)%nat.
Qed.

Lemma scanned_tweets st :
  ∃ new, tweets (scan st) = tweets st ++ new
         ∧ new `sublist_of`
             omap (λ a, extract_tweet_data a username)
               (articles_at env (scroll_count st))
         ∧ new_tweets_found (scan st) = length new.
Proof.
  unfold scanned.
  match goal with |- context [process_articles _ ?s ?l] =>
    destruct (process_articles_tweets username l s)
      as (new & -> & Hsub & ->) end.
  exists new. by destruct (_ =? _)%nat.
Qed.

Lemma scanned_cycles_started st :
  cycles_started (scan st) = S (cycles_started st).
Proof.
  unfold cycles_started, scanned.
  match goal with |- context [process_articles _ ?s ?l] =>
    destruct (process_articles_frame l s) as (_ & _ & ->) end.
  destruct (_ =? _)%nat; cbn [events set_new_tweets_found add_event];
    rewrite ?List.filter_app, ?length_app; cbn; lia.
Qed.

Lemma scanned_index_le st : index_le st (scan st).
Proof.
  unfold scanned.
  match goal with |- context [process_articles _ ?s ?l] =>
    pose proof (process_articles_index_le username l s) as H end.
  by destruct (_ =? _)%nat.
Qed.

Lemma scanned_consistent st :
  index_consistent st ∧ accepted_once st →
  index_consistent (scan st) ∧ accepted_once (scan st).
Proof.
  intros H. unfold scanned. apply process_articles_consistent.
  by destruct (_ =? _)%nat.
Qed.

(** *** What a cycle leaves behind *)

(** The fields a cycle takes over from its scan, whether or not the
    pause of line 204 is accepted. *)
Lemma scroll_cycle_scanned st :
  tweets (cycle st).2 = tweets (scan st)
  ∧ unique_tweet_ids (cycle st).2 = unique_tweet_ids (scan st)
  ∧ unique_tweet_texts (cycle st).2 = unique_tweet_texts (scan st)
  ∧ new_tweets_found (cycle st).2 = new_tweets_found (scan st)
  ∧ cycles_started (cycle st).2 = S (cycles_started st).
Proof.
  rewrite scroll_cycle_eq. cbn zeta.
  rewrite <- (scanned_cycles_started st). unfold cycles_started.
  destruct (sleep_refusal _); cbn; rewrite ?List.filter_app, ?length_app;
    cbn; repeat split; lia.
Qed.

Lemma scroll_cycle_prefix st : tweets st `prefix_of` tweets (cycle st).2.
Proof.
  destruct (scroll_cycle_scanned st) as (-> & _).
  destruct (scanned_tweets st) as (new & -> & _). by apply prefix_app_r.
Qed.

(** A cycle whose pause is accepted. *)
Lemma scroll_cycle_ok st :
  sleep_refusal (pause (scroll_count st)) = None →
  cycle st = (Ok (5 <=? consecutive_no_new_tweets (cycle st).2)%nat,
              (cycle st).2)
  ∧ scroll_count (cycle st).2 = S (scroll_count st)
  ∧ consecutive_no_new_tweets (cycle st).2
    = (if (new_tweets_found (cycle st).2 =? 0)%nat
       then S (consecutive_no_new_tweets st) else 0%nat).
Proof.
  intros Hp.
  rewrite scroll_cycle_eq. cbn zeta. rewrite Hp.
  cbn [snd scroll_count consecutive_no_new_tweets new_tweets_found
       set_consecutive_no_new_tweets set_scroll_count add_event].
  unfold next_idle.
  cbn [consecutive_no_new_tweets new_tweets_found add_event].
  destruct (scanned_frame st) as (_ & ->). done.
Qed.

(** A cycle whose pause is refused: the exception escapes and
    [scroll_count] is not incremented. *)
Lemma scroll_cycle_raise st e :
  sleep_refusal (pause (scroll_count st)) = Some e →
  cycle st = (Raise e, (cycle st).2)
  ∧ scroll_count (cycle st).2 = scroll_count st
  ∧ (cycle st).2 = add_event EvScrollToBottom (scan st).
Proof.
  intros Hp. rewrite scroll_cycle_eq. cbn zeta. rewrite Hp.
  cbn [snd scroll_count add_event].
  by destruct (scanned_frame st) as (-> & _).
Qed.

(** Whatever the pause, a cycle ends in one of these two ways. *)
Lemma scroll_cycle_cases st :
  (cycle st = (Ok (5 <=? consecutive_no_new_tweets (cycle st).2)%nat,
               (cycle st).2)
   ∧ scroll_count (cycle st).2 = S (scroll_count st))
  ∨ (∃ e, cycle st = (Raise e, (cycle st).2)
          ∧ scroll_count (cycle st).2 = scroll_count st).
Proof.
  destruct (sleep_refusal (pause (scroll_count st))) as [e|] eqn:H.
  - right. destruct (scroll_cycle_raise st e H) as (E1 & E2 & _). eauto.
  - left. destruct (scroll_cycle_ok st H) as (E1 & E2 & _). eauto.
Qed.

(** *** Fragments the index already knows *)

Lemma scanned_skipped st :
  Forall (skipped username st) (articles_at env (scroll_count st)) →
  tweets (scan st) = tweets st ∧ new_tweets_found (scan st) = 0%nat.
Proof.
  intros Hall. unfold scanned. rewrite process_articles_skipped.
  - by destruct (_ =? _)%nat.
  - eapply Forall_impl; [exact Hall|]. intros a Ha.
    eapply skipped_mono; [|exact Ha].
    by split; destruct (_ =? _)%nat.
Qed.

Lemma scanned_skipped_after st :
  Forall (skipped username (scan st)) (articles_at env (scroll_count st)).
Proof. unfold scanned. apply process_articles_skipped_after. Qed.

(** A cycle over the fragments the cycle before it saw finds nothing
    new. *)
Lemma scroll_cycle_same_page st :
  articles_at env (scroll_count (cycle st).2)
  = articles_at env (scroll_count st) →
  tweets (cycle (cycle st).2).2 = tweets (cycle st).2
  ∧ new_tweets_found (cycle (cycle st).2).2 = 0%nat.
Proof.
  intros Hsame.
  destruct (scroll_cycle_scanned st) as (_ & Hi & Hx & _).
  destruct (scroll_cycle_scanned (cycle st).2) as (-> & _ & _ & -> & _).
  apply scanned_skipped. rewrite Hsame.
  eapply Forall_impl; [apply scanned_skipped_after|]. intros a Ha.
  eapply skipped_mono; [|exact Ha]. unfold index_le. by rewrite Hi, Hx.
Qed.

Lemma scroll_cycle_consistent st :
  index_consistent st ∧ accepted_once st →
  index_consistent (cycle st).2 ∧ accepted_once (cycle st).2.
Proof.
  intros H. apply scanned_consistent in H.
  destruct (scroll_cycle_scanned st) as (Ht & Hi & Hx & _).
  unfold index_consistent, accepted_once in *. by rewrite Ht, Hi, Hx.
Qed.

End Cycle.

(** ** The scroll loop *)

Section Loop.

Variable env : Env.
Variable username : string.
Variable search_query : option string.
Variable max_scrolls : Z.
Variable scroll_pause_time : float.
Variable scroll_variation : float.

Local Abbreviation cycle :=
  (scroll_cycle env username scroll_pause_time scroll_variation).
Local Abbreviation pause :=
  (pause_length env scroll_pause_time scroll_variation).
Local Abbreviation loop :=
  (scrape_loop env username max_scrolls scroll_pause_time
     scroll_variation).
Local Abbreviation entry := (loop_entry env username search_query).
Local Abbreviation after :=
  (after_cycles env username search_query scroll_pause_time
     scroll_variation).
Local Abbreviation found :=
  (new_found_at env username search_query scroll_pause_time
     scroll_variation).

Lemma scrape_loop_done fuel st :
  ¬ Z.of_nat (scroll_count st) < max_scrolls →
  loop fuel st = Some (Ok (), st).
Proof. intros H. destruct fuel; cbn; by rewrite bool_decide_eq_false_2. Qed.

Lemma scrape_loop_step fuel st :
  Z.of_nat (scroll_count st) < max_scrolls →
  loop (S fuel) st
  = match cycle st with
    | (Ok true, st') => Some (Ok (), st')
    | (Ok false, st') => loop fuel st'
    | (Raise e, st') => Some (Raise e, st')
    end.
Proof. intros H. cbn. by rewrite bool_decide_eq_true_2. Qed.

(** With one unit of fuel per scroll still allowed, the loop ends. *)
Lemma scrape_loop_total fuel : ∀ st,
  max_scrolls - Z.of_nat (scroll_count st) ≤ Z.of_nat fuel →
  is_Some (loop fuel st).
Proof.
  induction fuel as [|fuel IH]; intros st Hf.
  - rewrite scrape_loop_done by lia. done.
  - destruct (decide (Z.of_nat (scroll_count st) < max_scrolls)) as [Hg|Hg];
      [|by rewrite scrape_loop_done].
    rewrite scrape_loop_step by done.
    pose proof (scroll_cycle_cases env username scroll_pause_time
                  scroll_variation st) as Hcases.
    destruct (cycle st) as [r st']. cbn [snd] in Hcases.
    destruct Hcases as [[[= ->] Hc]|(e & [= ->] & Hc)]; [|done].
    case_match; [done|]. apply IH. lia.
Qed.

(** What holds between the locals at any loop head and the locals the
    loop ends with. *)
Lemma scrape_loop_bounds fuel : ∀ st r st',
  loop fuel st = Some (r, st') →
  tweets st `prefix_of` tweets st'
  ∧ Z.of_nat (cycles_started st') - Z.of_nat (cycles_started st)
    ≤ Z.max 0 (max_scrolls - Z.of_nat (scroll_count st))
  ∧ Z.of_nat (scroll_count st')
    ≤ Z.max (Z.of_nat (scroll_count st)) max_scrolls
  ∧ (scroll_count st ≤ scroll_count st')%nat
  ∧ (scroll_count st' + cycles_started st
     ≤ cycles_started st' + scroll_count st)%nat.
Proof.
  induction fuel as [|fuel IH]; intros st r st' H.
  - destruct (decide (Z.of_nat (scroll_count st) < max_scrolls)) as [Hg|Hg].
    + cbn in H. by rewrite bool_decide_eq_true_2 in H.
    + rewrite scrape_loop_done in H by done. injection H as <- <-.
      split_and!; [done|lia..].
  - destruct (decide (Z.of_nat (scroll_count st) < max_scrolls)) as [Hg|Hg].
    2:{ rewrite scrape_loop_done in H by done. injection H as <- <-.
        split_and!; [done|lia..]. }
    rewrite scrape_loop_step in H by done.
    pose proof (scroll_cycle_prefix env username scroll_pause_time
                  scroll_variation st) as Hpre.
    destruct (scroll_cycle_scanned env username scroll_pause_time
                scroll_variation st) as (_ & _ & _ & _ & Hcs).
    pose proof (scroll_cycle_cases env username scroll_pause_time
                  scroll_variation st) as Hcases.
    destruct (cycle st) as [r0 st0]. cbn [snd] in Hpre, Hcs, Hcases.
    destruct Hcases as [[[= ->] Hc]|(e & [= ->] & Hc)].
    + case_match.
      * injection H as <- <-. split_and!; [done|lia..].
      * apply IH in H as (H1 & H2 & H3 & H4 & H5).
        split_and!; [by etrans|lia..].
    + injection H as <- <-. split_and!; [done|lia..].
Qed.

(** *** Before the loop *)

Lemma open_timeline_eq :
  open_timeline env username search_query initial_state
  = (Ok (timeline_loaded env), entry).
Proof.
  unfold loop_entry, open_timeline, emit, sleep.
  unfold mbind, M_bind, mret, M_ret, modify. cbn.
  by destruct (login_wall env), (timeline_loaded env).
Qed.

Lemma loop_entry_fields :
  tweets entry = [] ∧ unique_tweet_ids entry = ∅
  ∧ unique_tweet_texts entry = ∅ ∧ scroll_count entry = 0%nat
  ∧ consecutive_no_new_tweets entry = 0%nat
  ∧ new_tweets_found entry = 0%nat ∧ cycles_started entry = 0%nat.
Proof.
  unfold loop_entry, open_timeline, emit, sleep, cycles_started.
  unfold mbind, M_bind, mret, M_ret, modify. cbn.
  by destruct (login_wall env), (timeline_loaded env).
Qed.

Lemma scrape_tweets_eq :
  scrape_tweets env username search_query max_scrolls scroll_pause_time
    scroll_variation
  = if timeline_loaded env
    then match loop (Z.to_nat max_scrolls) entry with
         | Some (Ok _, st') => Some (Ok (tweets st'), st')
         | Some (Raise e, st') => Some (Raise e, st')
         | None => None
         end
    else Some (Ok (tweets entry), entry).
Proof.
  unfold scrape_tweets. rewrite open_timeline_eq.
  by destruct (timeline_loaded env).
Qed.

(** [scrape_tweets] always ends: the fuel it gives the loop suffices. *)
Lemma scrape_tweets_total :
  is_Some (scrape_tweets env username search_query max_scrolls
             scroll_pause_time scroll_variation).
Proof.
  rewrite scrape_tweets_eq. destruct (timeline_loaded env); [|done].
  destruct (scrape_loop_total (Z.to_nat max_scrolls) entry) as [[r st] ->].
  - destruct loop_entry_fields as (_ & _ & _ & -> & _). lia.
  - by destruct r.
Qed.

(** A refused pause ends the loop with the exception. *)
Lemma scrape_loop_raise fuel st e :
  Z.of_nat (scroll_count st) < max_scrolls →
  sleep_refusal (pause (scroll_count st)) = Some e →
  loop (S fuel) st = Some (Raise e, (cycle st).2).
Proof.
  intros Hg Hp. rewrite scrape_loop_step by done.
  destruct (scroll_cycle_raise env username scroll_pause_time
              scroll_variation st e Hp) as (E & _).
  destruct (cycle st) as [r st']. cbn [snd] in *.
  assert (r = Raise e) as -> by congruence. done.
Qed.

(** When the first pause is refused, the exception leaves
    [scrape_tweets] with no scroll counted. *)
Lemma scrape_tweets_first_pause_refused e :
  timeline_loaded env = true → 0 < max_scrolls →
  sleep_refusal (pause 0) = Some e →
  ∃ st',
    scrape_tweets env username search_query max_scrolls scroll_pause_time
      scroll_variation = Some (Raise e, st')
    ∧ scroll_count st' = 0%nat ∧ cycles_started st' = 1%nat.
Proof.
  intros Hl Hmax Hp. rewrite scrape_tweets_eq, Hl.
  destruct loop_entry_fields as (_ & _ & _ & Hc & _ & _ & Hs).
  destruct (Z.to_nat max_scrolls) as [|fuel] eqn:Hfuel; [lia|].
  rewrite <- Hc in Hp.
  rewrite (scrape_loop_raise fuel entry e); [| rewrite Hc; lia | exact Hp].
  eexists. split; [done|].
  destruct (scroll_cycle_raise env username scroll_pause_time
              scroll_variation entry e Hp) as (_ & -> & _).
  destruct (scroll_cycle_scanned env username scroll_pause_time
              scroll_variation entry) as (_ & _ & _ & _ & ->).
  by rewrite Hc, Hs.
Qed.

(** *** The run, cycle by cycle *)

Lemma after_cycles_succ n : after (S n) = (cycle (after n)).2.
Proof. done. Qed.

Lemma after_cycles_started n : cycles_started (after n) = n.
Proof.
  induction n as [|n IH].
  - apply loop_entry_fields.
  - rewrite after_cycles_succ.
    destruct (scroll_cycle_scanned env username scroll_pause_time
                scroll_variation (after n)) as (_ & _ & _ & _ & ->).
    by rewrite IH.
Qed.

Lemma after_cycles_prefix n m :
  (n ≤ m)%nat → tweets (after n) `prefix_of` tweets (after m).
Proof.
  induction 1 as [|m _ IH]; [done|].
  etrans; [apply IH|]. rewrite after_cycles_succ.
  apply scroll_cycle_prefix.
Qed.

Lemma after_cycles_scroll_count n :
  (∀ k, (k < n)%nat → sleep_refusal (pause k) = None) →
  scroll_count (after n) = n.
Proof.
  induction n as [|n IH]; intros Hp.
  - apply loop_entry_fields.
  - assert (Hn : scroll_count (after n) = n) by (apply IH; auto with lia).
    rewrite after_cycles_succ.
    destruct (scroll_cycle_ok env username scroll_pause_time
                scroll_variation (after n)) as (_ & -> & _);
      rewrite Hn; auto with lia.
Qed.

Lemma after_cycles_idle n :
  (∀ k, (k ≤ n)%nat → sleep_refusal (pause k) = None) →
  consecutive_no_new_tweets (after (S n))
  = if (found n =? 0)%nat
    then S (consecutive_no_new_tweets (after n)) else 0%nat.
Proof.
  intros Hp.
  assert (Hn : scroll_count (after n) = n)
    by (apply after_cycles_scroll_count; auto with lia).
  unfold new_found_at. rewrite after_cycles_succ.
  destruct (scroll_cycle_ok env username scroll_pause_time
              scroll_variation (after n)) as (_ & _ & ->);
    rewrite ?Hn; auto with lia.
Qed.

(** One turn of the loop, from the locals after [n] cycles. *)
Lemma scrape_loop_after_step fuel n :
  (∀ k, (k ≤ n)%nat → sleep_refusal (pause k) = None) →
  Z.of_nat n < max_scrolls →
  loop (S fuel) (after n)
  = if (5 <=? consecutive_no_new_tweets (after (S n)))%nat
    then Some (Ok (), after (S n))
    else loop fuel (after (S n)).
Proof.
  intros Hp Hg.
  assert (Hn : scroll_count (after n) = n)
    by (apply after_cycles_scroll_count; auto with lia).
  rewrite scrape_loop_step by (rewrite Hn; lia).
  rewrite after_cycles_succ.
  destruct (scroll_cycle_ok env username scroll_pause_time
              scroll_variation (after n)) as (E & _);
    [rewrite Hn; auto with lia|].
  rewrite E at 1. cbn [snd]. by case_match.
Qed.

(** The loop ends on locals that some number of cycles produces. *)
Lemma scrape_loop_after fuel : ∀ n r st',
  scroll_count (after n) = n →
  loop fuel (after n) = Some (r, st') →
  ∃ m, (n ≤ m)%nat ∧ st' = after m.
Proof.
  induction fuel as [|fuel IH]; intros n r st' Hn H.
  - destruct (decide (Z.of_nat (scroll_count (after n)) < max_scrolls))
      as [Hg|Hg].
    + cbn in H. by rewrite bool_decide_eq_true_2 in H.
    + rewrite scrape_loop_done in H by done. injection H as <- <-. eauto.
  - destruct (decide (Z.of_nat (scroll_count (after n)) < max_scrolls))
      as [Hg|Hg].
    2:{ rewrite scrape_loop_done in H by done. injection H as <- <-.
        eauto. }
    rewrite scrape_loop_step in H by done.
    pose proof (scroll_cycle_cases env username scroll_pause_time
                  scroll_variation (after n)) as Hcases.
    rewrite <- after_cycles_succ in Hcases.
    destruct (cycle (after n)) as [r0 st0] eqn:E.
    assert (st0 = after (S n)) as -> by (by rewrite after_cycles_succ, E).
    destruct Hcases as [[[= ->] Hc]|(e & [= ->] & Hc)].
    + case_match.
      * injection H as <- <-. exists (S n). split; [lia|done].
      * apply IH in H as (m & Hm & ->); [|lia].
        exists m. split; [lia|done].
    + injection H as <- <-. exists (S n). split; [lia|done].
Qed.

(** New records at every cycle: the loop uses up its budget. *)
Lemma scrape_loop_productive j : ∀ k,
  (k + j)%nat = Z.to_nat max_scrolls →
  (∀ n, (n < Z.to_nat max_scrolls)%nat →
        sleep_refusal (pause n) = None ∧ (0 < found n)%nat) →
  loop j (after k) = Some (Ok (), after (Z.to_nat max_scrolls)).
Proof.
  induction j as [|j IH]; intros k Hk Hall.
  - assert (Hn : scroll_count (after k) = k).
    { apply after_cycles_scroll_count. intros; apply Hall; lia. }
    rewrite scrape_loop_done by (rewrite Hn; lia).
    do 3 f_equal. lia.
  - rewrite scrape_loop_after_step; [| intros; apply Hall; lia | lia].
    rewrite after_cycles_idle by (intros; apply Hall; lia).
    destruct (Hall k ltac:(lia)) as [_ Hf].
    destruct (found k =? 0)%nat eqn:E; [apply Nat.eqb_eq in E; lia|].
    cbn [Nat.leb]. apply IH; [lia|done].
Qed.

(** No new record for the cycles it takes the idle streak to reach 5:
    the loop stops there. *)
Lemma scrape_loop_idle_run j : ∀ fuel k,
  (consecutive_no_new_tweets (after k) + S j = 5)%nat →
  Z.of_nat (k + S j) ≤ max_scrolls →
  (∀ n, (n < k + S j)%nat → sleep_refusal (pause n) = None) →
  (∀ n, (k ≤ n < k + S j)%nat → found n = 0%nat) →
  loop (S j + fuel) (after k) = Some (Ok (), after (k + S j)).
Proof.
  induction j as [|j IH]; intros fuel k Hidle Hmax Hp Hf.
  - cbn [Nat.add]. rewrite scrape_loop_after_step;
      [| intros; apply Hp; lia | lia].
    rewrite after_cycles_idle by (intros; apply Hp; lia).
    rewrite (Hf k) by lia. cbn [Nat.eqb].
    replace (consecutive_no_new_tweets (after k)) with 4%nat by lia.
    cbn [Nat.leb]. by rewrite Nat.add_1_r.
  - change (S (S j) + fuel)%nat with (S (S j + fuel)).
    rewrite scrape_loop_after_step; [| intros; apply Hp; lia | lia].
    assert (Hi : consecutive_no_new_tweets (after (S k))
                 = S (consecutive_no_new_tweets (after k))).
    { rewrite after_cycles_idle by (intros; apply Hp; lia).
      by rewrite (Hf k) by lia. }
    rewrite Hi.
    destruct (Nat.leb_spec 5 (S (consecutive_no_new_tweets (after k))));
      [lia|].
    replace (k + S (S j))%nat with (S k + S j)%nat by lia.
    apply IH; [lia | lia | intros; apply Hp; lia | intros; apply Hf; lia].
Qed.

(** Throughout a run the index describes the accepted records, and no
    logical post is accepted twice. *)
Lemma after_cycles_consistent n :
  index_consistent (after n) ∧ accepted_once (after n).
Proof.
  induction n as [|n IH].
  - destruct loop_entry_fields as (Ht & Hi & Hx & _).
    change (after 0) with entry.
    unfold index_consistent, accepted_once. rewrite Ht, Hi, Hx.
    split; [apply index_consistent_initial | apply accepted_once_initial].
  - rewrite after_cycles_succ. by apply scroll_cycle_consistent.
Qed.

(** The idle streak ends the run: a new record in the second cycle and
    none in the five cycles after it, no pause refused. *)
Lemma scrape_tweets_seven_cycles :
  timeline_loaded env = true →
  7 ≤ max_scrolls →
  (∀ n, sleep_refusal (pause n) = None) →
  (0 < found 1)%nat →
  (∀ n, (2 ≤ n < 7)%nat → found n = 0%nat) →
  ∃ st',
    scrape_tweets env username search_query max_scrolls
      scroll_pause_time scroll_variation = Some (Ok (tweets st'), st')
    ∧ scroll_count st' = 7%nat ∧ cycles_started st' = 7%nat
    ∧ consecutive_no_new_tweets st' = 5%nat
    ∧ tweets st' = tweets (after 2).
Proof.
  intros Hl Hmax Hp Hnew Hidle.
  assert (H1 : (consecutive_no_new_tweets (after 1) ≤ 1)%nat).
  { rewrite after_cycles_idle by (intros; apply Hp).
    destruct loop_entry_fields as (_ & _ & _ & _ & Hi & _).
    change (after 0) with entry.
    rewrite Hi. case_match; lia. }
  assert (H2 : consecutive_no_new_tweets (after 2) = 0%nat).
  { rewrite after_cycles_idle by (intros; apply Hp).
    case_match eqn:E; [apply Nat.eqb_eq in E; lia|done]. }
  rewrite scrape_tweets_eq, Hl.
  replace (Z.to_nat max_scrolls)
    with (S (S (5 + (Z.to_nat max_scrolls - 7))))%nat by lia.
  change entry with (after 0).
  rewrite scrape_loop_after_step; [| intros; apply Hp | lia].
  destruct (Nat.leb_spec 5 (consecutive_no_new_tweets (after 1)));
    [lia|].
  rewrite scrape_loop_after_step; [| intros; apply Hp | lia].
  rewrite H2. cbn [Nat.leb].
  rewrite (scrape_loop_idle_run 4 _ 2);
    [| by rewrite H2 | lia | intros; apply Hp
     | intros; apply Hidle; lia ].
  cbn [Nat.add]. eexists. split; [done|].
  rewrite after_cycles_started.
  rewrite after_cycles_scroll_count by (intros; apply Hp).
  split_and!; try done.
  - do 5 rewrite after_cycles_idle by (intros; apply Hp).
    rewrite !Hidle by lia. cbn [Nat.eqb]. by rewrite H2.
  - assert (Hstep : ∀ n, (2 ≤ n < 7)%nat →
              tweets (after (S n)) = tweets (after n)).
    { intros n Hn. rewrite after_cycles_succ.
      destruct (scroll_cycle_scanned env username scroll_pause_time
                  scroll_variation (after n)) as (Ht & _ & _ & Hf & _).
      rewrite Ht.
      destruct (scanned_tweets env username (after n))
        as (new & Hn1 & _ & Hn2).
      pose proof (Hidle n Hn) as Hz. unfold new_found_at in Hz.
      rewrite after_cycles_succ in Hz.
      rewrite Hf, Hn2 in Hz. destruct new; [|done].
      by rewrite Hn1, app_nil_r. }
    by rewrite !Hstep by lia.
Qed.

End Loop.

(** * The claims *)

(** C1 (idempotent deduplication): feeding a sequence of fragments a
    second time changes nothing, no record is added and the count of new
    records does not move; likewise a scroll cycle that sees the
    fragments of the cycle before it accepts nothing. Throughout a run
    the index describes the accepted records and no logical post (same
    known id or same text) is accepted at two positions; and from any
    such state, every fragment fed that yields a record is represented
    by an accepted record of the same logical post. *)
Theorem C1_idempotent_dedup env username search_query scroll_pause_time
    scroll_variation :
  (∀ st articles,
     process_articles username (process_articles username st articles)
       articles
     = process_articles username st articles)
  ∧ (∀ st,
       let st1 := (scroll_cycle env username scroll_pause_time
                     scroll_variation st).2 in
       let st2 := (scroll_cycle env username scroll_pause_time
                     scroll_variation st1).2 in
       articles_at env (scroll_count st1)
       = articles_at env (scroll_count st) →
       tweets st2 = tweets st1 ∧ new_tweets_found st2 = 0%nat)
  ∧ (∀ n,
       let st := after_cycles env username search_query scroll_pause_time
                   scroll_variation n in
       index_consistent st ∧ accepted_once st)
  ∧ (∀ st articles,
       index_consistent st → accepted_once st →
       let st1 := process_articles username st articles in
       accepted_once st1
       ∧ ∀ a t,
           a ∈ articles → extract_tweet_data a username = Some t →
           ∃ t', t' ∈ tweets st1 ∧ same_post t' t).
Proof.
  split_and!.
  - intros st articles. apply process_articles_idempotent.
  - intros st st1 st2. apply scroll_cycle_same_page.
  - intros n. apply after_cycles_consistent.
  - intros st articles Hc Ho st1.
    destruct (process_articles_consistent username articles st
                (conj Hc Ho)) as [Hc1 Ho1].
    split; [done|]. intros a t Ha Ht.
    pose proof (process_articles_skipped_after username articles st) as Hs.
    rewrite Forall_forall in Hs.
    apply (rejected_same_post st1 t Hc1). by apply (Hs a Ha).
Qed.

Lemma C1_idempotent_dedup_witness :
  let articles :=
    Samples.fragments
      [Samples.post1; Samples.post2; Samples.post4; Samples.post1] in
  let st1 := process_articles "alice" initial_state articles in
  let after :=
    after_cycles (Samples.browser Samples.settled_page) "alice" None
      (5 # 2) 1 in
  process_articles "alice" st1 articles = st1
  ∧ (tweets (after 3%nat) = tweets (after 2%nat)
     ∧ new_tweets_found (after 3%nat) = 0%nat)
  ∧ accepted_once st1
  ∧ (∀ a t, a ∈ articles → extract_tweet_data a "alice" = Some t →
            ∃ t', t' ∈ tweets st1 ∧ same_post t' t)
  ∧ text <$> tweets st1 = ["first post"; "second post"].
Proof.
  intros articles st1 after.
  destruct (C1_idempotent_dedup (Samples.browser Samples.settled_page)
              "alice" None (5 # 2) 1) as (H1 & H2 & _ & H4).
  destruct (H4 initial_state articles index_consistent_initial
              accepted_once_initial) as [H5 H6].
  split; [apply H1|].
  split; [apply (H2 (after 1%nat)); reflexivity|].
  split; [exact H5|]. split; [exact H6|].
  reflexivity.
Defined.

(** C2, as the specification states it, fails. With [max_scrolls = 3]
    and pages that show one more post at every cycle, a base pause of
    1/4 and a variation of 1/2 make the first pause -1/4: the run ends in
    its first cycle with an exception, one record found and no scroll
    counted. And when the timeline does not load, the loop is not entered
    at all. *)
Lemma C2_budget_is_not_always_used_up :
  (∃ st',
     scrape_tweets (Samples.browser Samples.growing_page) "alice" None 3
       (1 # 4) (1 # 2)
     = Some (Raise (ValueError "sleep length must be non-negative"), st')
     ∧ cycles_started st' = 1%nat ∧ scroll_count st' = 0%nat
     ∧ length (tweets st') = 1%nat)
  ∧ (∃ st',
       scrape_tweets (Samples.stalled_browser Samples.growing_page) "alice"
         None 3 (5 # 2) 1
       = Some (Ok [], st')
       ∧ cycles_started st' = 0%nat).
Proof.
  split.
  - eexists. split; [vm_compute; reflexivity|]. by split_and!.
  - eexists. split; [vm_compute; reflexivity|]. done.
Qed.

(** C2 (as amended): [scrape_tweets] always ends, having begun at most
    [max_scrolls] scroll cycles. When the timeline loads, the variation
    lies between 0 and the base pause (their sum within [sleep_bound]),
    so that no pause is refused, and every cycle finds at least one new
    record, it returns after exactly [max_scrolls] cycles: 3 cycles for
    [max_scrolls = 3]. *)
Theorem C2_termination_by_budget env username search_query max_scrolls :
  (∀ scroll_pause_time scroll_variation : float,
     ∃ r st',
       scrape_tweets env username search_query max_scrolls
         scroll_pause_time scroll_variation = Some (r, st')
       ∧ Z.of_nat (cycles_started st') ≤ Z.max 0 max_scrolls
       ∧ Z.of_nat (scroll_count st') ≤ Z.max 0 max_scrolls)
  ∧ (∀ scroll_pause_time scroll_variation : Q,
       timeline_loaded env = true →
       Float.is_double scroll_pause_time →
       Float.is_double scroll_variation →
       (0 <= scroll_variation)%Q →
       (scroll_variation <= scroll_pause_time)%Q →
       (scroll_pause_time + scroll_variation <= sleep_bound)%Q →
       (∀ n, (n < Z.to_nat max_scrolls)%nat →
          (0 < new_found_at env username search_query scroll_pause_time
                 scroll_variation n)%nat) →
       ∃ st',
         scrape_tweets env username search_query max_scrolls
           scroll_pause_time scroll_variation
         = Some (Ok (tweets st'), st')
         ∧ cycles_started st' = Z.to_nat max_scrolls
         ∧ scroll_count st' = Z.to_nat max_scrolls
         ∧ (max_scrolls = 3 → cycles_started st' = 3%nat)).
Proof.
  split.
  - intros scroll_pause_time scroll_variation. rewrite scrape_tweets_eq.
    destruct (loop_entry_fields env username search_query)
      as (_ & _ & _ & Hc & _ & _ & Hs).
    destruct (timeline_loaded env).
    + destruct (scrape_loop_total env username max_scrolls
                  scroll_pause_time scroll_variation
                  (Z.to_nat max_scrolls)
                  (loop_entry env username search_query))
        as [[r st'] E]; [rewrite Hc; lia|].
      rewrite E.
      apply scrape_loop_bounds in E as (_ & H1 & H2 & _).
      rewrite Hc, Hs in *.
      destruct r as [[]|e]; eexists _, _; (split; [done|]); lia.
    + eexists _, _. split; [done|]. rewrite Hc, Hs. lia.
  - intros scroll_pause_time scroll_variation Hl Hdb Hdv Hv Hle Hb Hall.
    rewrite scrape_tweets_eq, Hl.
    assert (Hp : ∀ n, sleep_refusal
                        (pause_length env scroll_pause_time
                           scroll_variation n) = None)
      by (intros n; by apply pause_accepted).
    change (loop_entry env username search_query)
      with (after_cycles env username search_query scroll_pause_time
              scroll_variation 0).
    rewrite (scrape_loop_productive env username search_query max_scrolls
               scroll_pause_time scroll_variation (Z.to_nat max_scrolls) 0)
      by (done || intros; split; auto).
    eexists. split; [done|].
    rewrite after_cycles_started.
    rewrite after_cycles_scroll_count by (intros; apply Hp).
    split_and!; [done|done|]. by intros ->.
Qed.

Lemma C2_termination_by_budget_witness :
  ∃ st',
    scrape_tweets (Samples.browser Samples.growing_page) "alice" None 3
      (5 # 2) 1 = Some (Ok (tweets st'), st')
    ∧ cycles_started st' = 3%nat ∧ scroll_count st' = 3%nat.
Proof.
  destruct (C2_termination_by_budget (Samples.browser Samples.growing_page)
              "alice" None 3) as [_ H].
  destruct (H (5 # 2) 1%Q) as (st' & E & H1 & H2 & _).
  - reflexivity.
  - by vm_compute.
  - by vm_compute.
  - by vm_compute.
  - by vm_compute.
  - by vm_compute.
  - intros n Hn.
    assert (n = 0 ∨ n = 1 ∨ n = 2)%nat as [-> | [-> | ->]] by lia;
      vm_compute; lia.
  - exists st'. by split_and!.
Defined.

(** C3, as the specification states it, fails. With pages that show
    nothing new after the second cycle and a budget of 4 scrolls, the
    run ends after cycle 4, the idle streak at 2; and with a budget of
    200, a base pause of 1/2 and a variation of 1, the first pause is
    -1/2 and the run ends in its first cycle with an exception. *)
Lemma C3_run_may_end_before_the_seventh_cycle :
  (∃ l st',
     scrape_tweets (Samples.browser Samples.settled_page) "alice" None 4
       (5 # 2) 1 = Some (Ok l, st')
     ∧ cycles_started st' = 4%nat
     ∧ consecutive_no_new_tweets st' = 2%nat)
  ∧ (∃ st',
       scrape_tweets (Samples.browser Samples.settled_page) "alice" None
         200 (1 # 2) 1
       = Some (Raise (ValueError "sleep length must be non-negative"), st')
       ∧ cycles_started st' = 1%nat ∧ scroll_count st' = 0%nat).
Proof.
  split.
  - eexists _, _. split; [vm_compute; reflexivity|]. by split_and!.
  - eexists. split; [vm_compute; reflexivity|]. by split_and!.
Qed.

Section Idleness.

Variable env : Env.
Variable username : string.
Variable search_query : option string.
Variable max_scrolls : Z.

(** C3 (as amended): a cycle that leaves the idle streak at 5 or more
    is the last one, whatever budget is left. When the timeline loads,
    the budget is at least 7, the variation lies between 0 and the base
    pause (their sum within [sleep_bound]), so that no pause is refused,
    the second cycle finds a new record and the five cycles after it
    find none, the run returns after exactly 7 cycles with what it had
    after 2. *)
Theorem C3_termination_by_idleness :
  (∀ (scroll_pause_time scroll_variation : float) fuel st b st',
     Z.of_nat (scroll_count st) < max_scrolls →
     scroll_cycle env username scroll_pause_time scroll_variation st
     = (Ok b, st') →
     (5 ≤ consecutive_no_new_tweets st')%nat →
     scrape_loop env username max_scrolls scroll_pause_time
       scroll_variation (S fuel) st = Some (Ok (), st'))
  ∧ (∀ scroll_pause_time scroll_variation : Q,
       timeline_loaded env = true →
       7 ≤ max_scrolls →
       Float.is_double scroll_pause_time →
       Float.is_double scroll_variation →
       (0 <= scroll_variation)%Q →
       (scroll_variation <= scroll_pause_time)%Q →
       (scroll_pause_time + scroll_variation <= sleep_bound)%Q →
       (0 < new_found_at env username search_query scroll_pause_time
              scroll_variation 1)%nat →
       (∀ n, (2 ≤ n < 7)%nat →
          new_found_at env username search_query scroll_pause_time
            scroll_variation n = 0%nat) →
       ∃ st',
         scrape_tweets env username search_query max_scrolls
           scroll_pause_time scroll_variation
         = Some (Ok (tweets st'), st')
         ∧ scroll_count st' = 7%nat ∧ cycles_started st' = 7%nat
         ∧ consecutive_no_new_tweets st' = 5%nat
         ∧ tweets st'
           = tweets (after_cycles env username search_query
                       scroll_pause_time scroll_variation 2)).
Proof.
  split.
  - intros scroll_pause_time scroll_variation fuel st b st' Hg E Hidle.
    rewrite scrape_loop_step, E by done.
    pose proof (scroll_cycle_cases env username scroll_pause_time
                  scroll_variation st) as Hcases.
    rewrite E in Hcases. cbn [snd] in Hcases.
    destruct Hcases as [[Hb _]|(e & [=] & _)].
    assert (b = true) as ->; [|done].
    injection Hb as Hb. rewrite Hb.
    change ((5 <=? consecutive_no_new_tweets st')%nat = true).
    by apply Nat.leb_le.
  - intros base variation Hl Hmax Hdb Hdv Hv Hle Hb Hnew Hidle.
    apply scrape_tweets_seven_cycles; try done.
    intros n. by apply pause_accepted.
Qed.

End Idleness.

Lemma C3_termination_by_idleness_witness :
  ∃ st',
    scrape_tweets (Samples.browser Samples.settled_page) "alice" None 200
      (5 # 2) 1 = Some (Ok (tweets st'), st')
    ∧ scroll_count st' = 7%nat ∧ cycles_started st' = 7%nat
    ∧ consecutive_no_new_tweets st' = 5%nat
    ∧ tweets st'
      = tweets (after_cycles (Samples.browser Samples.settled_page) "alice"
                  None (5 # 2) 1 2).
Proof.
  destruct (C3_termination_by_idleness (Samples.browser Samples.settled_page)
              "alice" None 200) as [_ H].
  apply (H (5 # 2) 1%Q).
  - reflexivity.
  - lia.
  - by vm_compute.
  - by vm_compute.
  - by vm_compute.
  - by vm_compute.
  - by vm_compute.
  - vm_compute. lia.
  - intros n Hn.
    assert (n = 2 ∨ n = 3 ∨ n = 4 ∨ n = 5 ∨ n = 6)%nat
      as [-> | [-> | [-> | [-> | ->]]]] by lia;
      vm_compute; reflexivity.
Defined.

(** C4, as the specification states it, fails: with a base pause of 1/2
    and a variation of 1 the lowest jitter gives a pause of -1/2; the
    value is handed to [time.sleep] as it is, which refuses it, and the
    exception ends the crawl. With a base pause of 1 the same jitter
    gives a pause of exactly 0. *)
Lemma C4_pause_is_not_clamped :
  pause_length (Samples.browser Samples.growing_page) (1 # 2) 1 0
  = Float.Finite (- (1 # 2))
  ∧ pause_length (Samples.browser Samples.growing_page) 1 1 0
    = Float.Finite 0
  ∧ ∃ st',
      scrape_tweets (Samples.browser Samples.growing_page) "alice" None 3
        (1 # 2) 1
      = Some (Raise (ValueError "sleep length must be non-negative"), st')
      ∧ scroll_count st' = 0%nat.
Proof.
  split; [by vm_compute|]. split; [by vm_compute|].
  eexists. split; [vm_compute; reflexivity | reflexivity].
Qed.

(** C4 (as amended): the pause is the base pause plus the jitter, handed
    to [time.sleep] with no clamping. With a variation between 0 and the
    base pause (their sum within [sleep_bound]) the pause is never
    negative, it is positive when the variation is below the base pause,
    and it is the very value slept at the end of the cycle. With a
    variation above the base pause (both between 0 and [sleep_bound])
    the lowest jitter makes the pause negative: when it is drawn in the
    first cycle, [time.sleep] raises and the exception leaves
    [scrape_tweets], no scroll counted. *)
Theorem C4_pause_is_passed_unclamped env username search_query max_scrolls
    (scroll_pause_time scroll_variation : Q) :
  Float.is_double scroll_pause_time →
  Float.is_double scroll_variation →
  ((0 <= scroll_variation)%Q →
   (scroll_variation <= scroll_pause_time)%Q →
   (scroll_pause_time + scroll_variation <= sleep_bound)%Q →
   ∀ st, ∃ p,
     pause_length env scroll_pause_time scroll_variation (scroll_count st)
     = Float.Finite p
     ∧ (0 <= p)%Q
     ∧ ((scroll_variation < scroll_pause_time)%Q → (0 < p)%Q)
     ∧ ∃ b st',
         scroll_cycle env username scroll_pause_time scroll_variation st
         = (Ok b, st')
         ∧ last (events st') = Some (EvSleep (Float.Finite p)))
  ∧ ((0 <= scroll_pause_time)%Q →
     (scroll_pause_time < scroll_variation)%Q →
     (scroll_variation <= sleep_bound)%Q →
     timeline_loaded env = true →
     0 < max_scrolls →
     (random_pause env 0 mod 2 ^ 53 = 0)%N →
     ∃ p,
       pause_length env scroll_pause_time scroll_variation 0
       = Float.Finite p
       ∧ (p < 0)%Q
       ∧ ∃ st',
           scrape_tweets env username search_query max_scrolls
             scroll_pause_time scroll_variation
           = Some (Raise (ValueError "sleep length must be non-negative"),
                   st')
           ∧ scroll_count st' = 0%nat ∧ cycles_started st' = 1%nat).
Proof.
  intros Hdb Hdv. split.
  - intros Hv Hle Hb st.
    destruct (pause_in_range env scroll_pause_time scroll_variation
                (scroll_count st) Hdb Hdv Hv Hle Hb)
      as (p & Hp & H0 & H1 & Hpos).
    exists p. split_and!; [done|done|done|].
    rewrite scroll_cycle_eq. cbn zeta. rewrite Hp.
    rewrite sleep_refusal_None by done.
    eexists _, _. split; [reflexivity|]. cbn. by rewrite last_snoc.
  - intros H0 Hlt Hb Hl Hmax Hdraw.
    destruct (pause_lowest_draw env scroll_pause_time scroll_variation 0
                Hdb Hdv H0 Hlt Hb Hdraw) as (p & Hp & Hneg & Href).
    exists p. split_and!; [done|done|].
    by apply scrape_tweets_first_pause_refused.
Qed.

Lemma C4_pause_is_passed_unclamped_witness :
  (∃ p,
     pause_length (Samples.browser Samples.growing_page) (5 # 2) 1 0
     = Float.Finite p
     ∧ (0 < p)%Q
     ∧ ∃ b st',
         scroll_cycle (Samples.browser Samples.growing_page) "alice"
           (5 # 2) 1 initial_state = (Ok b, st')
         ∧ last (events st') = Some (EvSleep (Float.Finite p)))
  ∧ ∃ p,
      pause_length (Samples.browser Samples.growing_page) (1 # 2) 1 0
      = Float.Finite p
      ∧ (p < 0)%Q
      ∧ ∃ st',
          scrape_tweets (Samples.browser Samples.growing_page) "alice" None
            200 (1 # 2) 1
          = Some (Raise (ValueError "sleep length must be non-negative"),
                  st')
          ∧ scroll_count st' = 0%nat ∧ cycles_started st' = 1%nat.
Proof.
  split.
  - destruct (C4_pause_is_passed_unclamped
                (Samples.browser Samples.growing_page) "alice" None 200
                (5 # 2) 1) as [H _]; [by vm_compute | by vm_compute |].
    destruct (H ltac:(by vm_compute) ltac:(by vm_compute)
                ltac:(by vm_compute) initial_state)
      as (p & Hp & _ & H2 & H3).
    exists p. split_and!; [exact Hp | apply H2; by vm_compute | exact H3].
  - destruct (C4_pause_is_passed_unclamped
                (Samples.browser Samples.growing_page) "alice" None 200
                (1 # 2) 1) as [_ H]; [by vm_compute | by vm_compute |].
    apply H; (by vm_compute) || reflexivity || lia.
Defined.

(** C5 (timestamp extraction): a fragment whose [time] element has no
    [datetime] attribute makes [extract_tweet_data] return [None]: the
    subscript of line 86 raises and the whole extraction is given up,
    where the claim promises a record with the sentinel timestamp. *)
Theorem C5_time_without_datetime_fails article username t :
  find "time" [] article = Some t →
  get t "datetime" = None →
  extract_tweet_data article username = None.
Proof. intros Ht Hd. apply extract_tweet_data_None. eauto. Qed.

Lemma C5_time_without_datetime_fails_witness :
  extract_tweet_data article_without_datetime "alice" = None.
Proof.
  apply (C5_time_without_datetime_fails article_without_datetime "alice"
           ([Tag "article" ∅ [Tag "time" ∅ [NavigableString "2h"]];
             Tag "[document]" ∅
               [Tag "article" ∅ [Tag "time" ∅ [NavigableString "2h"]]]],
            Tag "time" ∅ [NavigableString "2h"])).
  - reflexivity.
  - reflexivity.
Defined.

(** C6 (the text check applies to every record): a candidate record
    whose cleaned text is already among the seen texts is rejected,
    whatever its id: processing its fragment leaves the locals as they
    were. *)
Theorem C6_seen_text_is_rejected username st article t :
  extract_tweet_data article username = Some t →
  text t ∈ unique_tweet_texts st →
  process_article username st article = st.
Proof.
  intros H Ht. eapply process_article_rejected; [done|]. by right.
Qed.

Lemma C6_seen_text_is_rejected_witness :
  let st :=
    process_articles "alice" initial_state
      (Samples.fragments [Samples.post1]) in
  let t :=
    {| tweet_id := "104"; timestamp := "2024-05-01T10:00:00.000Z";
       text := "first post"; replies := 9; retweets := 9; likes := 9;
       url := "https://twitter.com/alice/status/104" |} in
  tweet_id t ≠ Unknown ∧ (tweet_id t ∉ unique_tweet_ids st)
  ∧ process_article "alice" st (Samples.fragment [Samples.post4] 0) = st.
Proof.
  intros st t. split; [done|]. split; [by vm_compute|].
  apply (C6_seen_text_is_rejected "alice" st
           (Samples.fragment [Samples.post4] 0) t).
  - reflexivity.
  - by vm_compute.
Defined.

(** C7 (counter extraction): each of the three counters is read from the
    sub-element at its fixed position (0 replies, 1 reposts, 2 likes)
    below the first statistics group; it is the decimal value of the
    first maximal run of digits of that sub-element's text, 0 when the
    text has no digit or the sub-element is missing; it is never
    negative; the text "1.2K replies" gives 1. *)
Theorem C7_counter_extraction article username t :
  extract_tweet_data article username = Some t →
  counter_spec (stat_element article 0) (replies t)
  ∧ counter_spec (stat_element article 1) (retweets t)
  ∧ counter_spec (stat_element article 2) (likes t)
  ∧ 0 ≤ replies t ∧ 0 ≤ retweets t ∧ 0 ≤ likes t
  ∧ stat_of_text "1.2K replies" = 1.
Proof.
  intros H. apply extract_tweet_data_Some in H as (_ & _ & _ & -> & -> & ->).
  assert (Hspec : ∀ sub, counter_spec sub
            (default 0 ((λ el, stat_of_text (get_text el)) <$> sub))).
  { intros [el|]; simpl; [apply stat_of_text_first_run | done]. }
  assert (Hpos : ∀ sub : option Element,
            0 ≤ default 0 ((λ el, stat_of_text (get_text el)) <$> sub)).
  { intros [el|]; simpl; [|lia]. unfold stat_of_text.
    destruct (first_run_exists (get_text el))
      as [Hn|(pre & run & post & -> & Hpre & Hne & Hrun & Hpost)].
    - rewrite search_digits_no_digits by done. lia.
    - rewrite search_digits_first_run by done.
      rewrite int_decimal. by apply decimal_value_nonneg. }
  repeat split; try apply Hspec; try apply Hpos.
Qed.

Lemma C7_counter_extraction_witness :
  let a := Samples.fragment [Samples.post1] 0 in
  counter_spec (stat_element a 0) 1
  ∧ counter_spec (stat_element a 1) 0
  ∧ counter_spec (stat_element a 2) 7
  ∧ 0 ≤ 1 ∧ 0 ≤ 0 ∧ 0 ≤ 7
  ∧ stat_of_text "1.2K replies" = 1.
Proof.
  intros a.
  apply (C7_counter_extraction a "alice"
           {| tweet_id := "101"; timestamp := "2024-05-01T10:00:00.000Z";
              text := "first post"; replies := 1; retweets := 0; likes := 7;
              url := "https://twitter.com/alice/status/101" |}).
  reflexivity.
Defined.

(** C8 (the accepted records are append-only, in discovery order): the
    accepted list before a fragment is processed, before a page is
    processed, before a scroll cycle and at any loop head is a prefix of
    the accepted list afterwards; the records a page adds come in the
    order of its fragments; and the list [scrape_tweets] returns extends
    the accepted list of every earlier cycle of the run. *)
Theorem C8_accepted_is_append_only env username search_query max_scrolls
    scroll_pause_time scroll_variation :
  (∀ st article,
     tweets st `prefix_of` tweets (process_article username st article))
  ∧ (∀ st articles,
       ∃ new, tweets (process_articles username st articles)
              = tweets st ++ new
              ∧ new `sublist_of`
                  omap (λ a, extract_tweet_data a username) articles)
  ∧ (∀ st,
       tweets st `prefix_of`
         tweets (scroll_cycle env username scroll_pause_time
                   scroll_variation st).2)
  ∧ (∀ fuel st r st',
       scrape_loop env username max_scrolls scroll_pause_time
         scroll_variation fuel st = Some (r, st') →
       tweets st `prefix_of` tweets st')
  ∧ (∀ l st',
       scrape_tweets env username search_query max_scrolls
         scroll_pause_time scroll_variation = Some (Ok l, st') →
       l = tweets st'
       ∧ ∃ m, st' = after_cycles env username search_query
                      scroll_pause_time scroll_variation m
              ∧ ∀ n, (n ≤ m)%nat →
                     tweets (after_cycles env username search_query
                               scroll_pause_time scroll_variation n)
                     `prefix_of` l).
Proof.
  split_and!.
  - intros st article. rewrite process_article_tweets.
    by apply prefix_app_r.
  - intros st articles.
    destruct (process_articles_tweets username articles st)
      as (new & H1 & H2 & _). eauto.
  - apply scroll_cycle_prefix.
  - intros fuel st r st' H. by apply scrape_loop_bounds in H as (? & _).
  - intros l st'. rewrite scrape_tweets_eq.
    destruct (timeline_loaded env).
    + destruct (scrape_loop _ _ _ _ _ _ _) as [[[[]|e] st2]|] eqn:E;
        [|done..].
      intros [= <- <-]. split; [done|].
      change (loop_entry env username search_query)
        with (after_cycles env username search_query scroll_pause_time
                scroll_variation 0) in E.
      apply scrape_loop_after in E as (m & Hm & ->).
      * exists m. split; [done|]. intros n Hn. by apply after_cycles_prefix.
      * apply loop_entry_fields.
    + intros [= <- <-]. split; [done|]. exists 0%nat. split; [done|].
      intros n Hn.
      by apply (after_cycles_prefix env username search_query
                  scroll_pause_time scroll_variation n 0).
Qed.

Lemma C8_accepted_is_append_only_witness :
  ∃ l st',
    scrape_tweets (Samples.browser Samples.growing_page) "alice" None 3
      (5 # 2) 1 = Some (Ok l, st')
    ∧ text <$> l = ["first post"; "second post"; "third post"]
    ∧ ∀ n, (n ≤ 3)%nat →
           tweets (after_cycles (Samples.browser Samples.growing_page)
                     "alice" None (5 # 2) 1 n) `prefix_of` l.
Proof.
  destruct (C8_accepted_is_append_only (Samples.browser Samples.growing_page)
              "alice" None 3 (5 # 2) 1) as (_ & _ & _ & _ & H).
  eassert (E : scrape_tweets (Samples.browser Samples.growing_page) "alice"
                 None 3 (5 # 2) 1 = Some (Ok _, _))
    by (vm_compute; reflexivity).
  destruct (H _ _ E) as (_ & m & Hm & Hpre).
  assert (m = 3%nat) as ->.
  { apply (f_equal cycles_started) in Hm.
    rewrite after_cycles_started in Hm. by vm_compute in Hm. }
  eexists _, _. split; [exact E|]. split; [reflexivity|]. exact Hpre.
Defined.

(** C9, as the specification states it, fails: a fragment without a text
    container need not extract, and then it is the second of two such
    fragments that is accepted. Here the first has a time element with
    no [datetime] and yields no record; the second, with the known id
    202, is appended. *)
Lemma C9_first_textless_fragment_may_fail :
  let a := article_without_datetime in
  let b := Samples.fragment [Samples.textless_post "202"] 0 in
  find "div" [("data-testid", "tweetText")] a = None
  ∧ find "div" [("data-testid", "tweetText")] b = None
  ∧ extract_tweet_data a "alice" = None
  ∧ tweet_id <$> tweets (process_articles "alice" initial_state [a; b])
    = ["202"]
  ∧ text <$> tweets (process_articles "alice" initial_state [a; b])
    = [No_text_found].
Proof. cbn zeta. split_and!; reflexivity. Qed.

(** C9 (as amended): of two fragments without a text container that
    both yield a record, both records carry the text "No text found";
    in a session that has not yet seen that text nor the id of the
    first, the first is accepted and the second is rejected, by the text
    check: its text is among the seen texts, even when its id is known,
    differs from the id of the first and is not among the seen ids. *)
Theorem C9_textless_posts_collide username st a b ta tb :
  find "div" [("data-testid", "tweetText")] a = None →
  find "div" [("data-testid", "tweetText")] b = None →
  extract_tweet_data a username = Some ta →
  extract_tweet_data b username = Some tb →
  No_text_found ∉ unique_tweet_texts st →
  tweet_id ta ∉ unique_tweet_ids st →
  text ta = No_text_found ∧ text tb = No_text_found
  ∧ tweets (process_article username st a) = tweets st ++ [ta]
  ∧ text tb ∈ unique_tweet_texts (process_article username st a)
  ∧ (tweet_id tb ≠ tweet_id ta → tweet_id tb ∉ unique_tweet_ids st →
     tweet_id tb ∉ unique_tweet_ids (process_article username st a))
  ∧ process_article username (process_article username st a) b
    = process_article username st a
  ∧ tweets (process_articles username st [a; b]) = tweets st ++ [ta].
Proof.
  intros Ha Hb Ea Eb Htext Hid.
  destruct (extract_tweet_data_Some _ _ _ Ea) as (_ & _ & Hta & _).
  destruct (extract_tweet_data_Some _ _ _ Eb) as (_ & _ & Htb & _).
  rewrite Ha in Hta. rewrite Hb in Htb.
  assert (Hacc : process_article username st a = accept st ta).
  { apply process_article_accepted; [done|].
    unfold rejected. rewrite Hta. tauto. }
  assert (Hseen : text tb ∈ unique_tweet_texts (accept st ta)).
  { rewrite Htb, <- Hta. unfold accept; cbn. set_solver. }
  assert (Hrej : process_article username (accept st ta) b = accept st ta).
  { eapply process_article_rejected; [done|]. by right. }
  split_and!; try done.
  - by rewrite Hacc.
  - by rewrite Hacc.
  - intros Hne Hnew. rewrite Hacc. unfold accept; cbn.
    case_bool_decide; set_solver.
  - by rewrite Hacc.
  - unfold process_articles. cbn [foldl]. by rewrite Hacc, Hrej.
Qed.

Lemma C9_textless_posts_collide_witness :
  let a := Samples.fragment [Samples.textless_post "201";
                             Samples.textless_post "202"] 0 in
  let b := Samples.fragment [Samples.textless_post "201";
                             Samples.textless_post "202"] 1 in
  let ta :=
    {| tweet_id := "201"; timestamp := "2024-05-01T10:00:00.000Z";
       text := "No text found"; replies := 1; retweets := 2; likes := 3;
       url := "https://twitter.com/alice/status/201" |} in
  let tb :=
    {| tweet_id := "202"; timestamp := "2024-05-01T10:00:00.000Z";
       text := "No text found"; replies := 1; retweets := 2; likes := 3;
       url := "https://twitter.com/alice/status/202" |} in
  extract_tweet_data a "alice" = Some ta
  ∧ extract_tweet_data b "alice" = Some tb
  ∧ tweet_id ta ≠ Unknown ∧ tweet_id tb ≠ Unknown
  ∧ (tweet_id tb
     ∉ unique_tweet_ids (process_article "alice" initial_state a))
  ∧ text tb ∈ unique_tweet_texts (process_article "alice" initial_state a)
  ∧ process_article "alice" (process_article "alice" initial_state a) b
    = process_article "alice" initial_state a
  ∧ tweets (process_articles "alice" initial_state [a; b]) = [ta].
Proof.
  intros a b ta tb.
  destruct (C9_textless_posts_collide "alice" initial_state a b ta tb)
    as (_ & _ & _ & H4 & H5 & H6 & H7);
    [reflexivity | reflexivity | reflexivity | reflexivity
    | by vm_compute | by vm_compute |].
  split_and!; first [by apply H5 | exact H4 | exact H6 | exact H7 | done].
Defined.

(** C10 (extraction failure is atomic): a fragment whose extraction
    returns no record leaves every local of the crawl as it was (the
    accepted records, the seen ids, the seen texts, the count of new
    records), and the loop then goes on with the remaining fragments. *)
Theorem C10_failed_extraction_changes_nothing username st article rest :
  extract_tweet_data article username = None →
  process_article username st article = st
  ∧ process_articles username st (article :: rest)
    = process_articles username st rest.
Proof.
  intros H. rewrite process_articles_cons.
  by rewrite process_article_failed.
Qed.

Lemma C10_failed_extraction_changes_nothing_witness :
  process_article "alice" initial_state article_without_datetime
  = initial_state
  ∧ process_articles "alice" initial_state
      (article_without_datetime :: Samples.fragments [Samples.post1])
    = process_articles "alice" initial_state
        (Samples.fragments [Samples.post1]).
Proof.
  apply (C10_failed_extraction_changes_nothing "alice" initial_state
           article_without_datetime (Samples.fragments [Samples.post1])).
  reflexivity.
Defined.

(** * Further properties *)

(** ** Whitespace normalisation *)

Module CleanFacts.
Import Text WordSpec.

Lemma words_nonspace_head c rest :
  isspace c = false → ∃ w ws, words (String c rest) = String c w :: ws.
Proof.
  intros Hc. cbn [words]. rewrite Hc.
  destruct rest as [|d rest']; [by eexists _, _|].
  destruct (isspace d); [by eexists _, _|].
  destruct (words (String d rest')); by eexists _, _.
Qed.

Lemma words_are_words text : Forall is_word (words text).
Proof.
  induction text as [|c rest IH]; [constructor|].
  cbn [words]. destruct (isspace c) eqn:Hc; [done|].
  assert (Hone : is_word (String c EmptyString)).
  { split; [done|]. cbn. by rewrite Hc. }
  destruct rest as [|d rest']; [by constructor|].
  destruct (isspace d) eqn:Hd; [by constructor|].
  destruct (words (String d rest')) as [|w ws]; [by constructor|].
  apply Forall_cons in IH as [[Hw1 Hw2] Hws].
  constructor; [|done]. split; [done|]. cbn. by rewrite Hc.
Qed.

Lemma join_empty_iff parts :
  Forall is_word parts → join " " parts = EmptyString ↔ parts = [].
Proof.
  intros Hall. split; [|by intros ->].
  destruct parts as [|w ws]; [done|].
  apply Forall_cons in Hall as [[Hw _] _].
  destruct w; [done|]. cbn. by destruct ws.
Qed.

Lemma join_cons_char c w ws :
  join " " (String c w :: ws) = String c (join " " (w :: ws)).
Proof. cbn. by destruct ws. Qed.

(** What trimming the right end leaves of a normalised string. *)
Lemma rstrip_sub_spaces text :
  rstrip (sub_spaces true text) = join " " (words text)
  ∧ rstrip (sub_spaces false text)
    = (if starts_with_space text && bool_decide (words text ≠ [])
       then " " else "") +:+ join " " (words text).
Proof.
  induction text as [|c rest [IHt IHf]]; [done|].
  cbn [sub_spaces starts_with_space].
  destruct (isspace c) eqn:Hc.
  - cbn [words]. rewrite Hc. split; [done|].
    cbn [rstrip]. rewrite IHt. change (isspace " ") with true.
    cbn [andb].
    pose proof (join_empty_iff (words rest) (words_are_words rest)) as Hj.
    destruct (join " " (words rest)) eqn:Ej.
    + rewrite bool_decide_eq_false_2; [done|].
      intros Hne. apply Hne. by apply Hj.
    + rewrite bool_decide_eq_true_2; [done|].
      intros He. apply Hj in He. done.
  - cbn [andb]. change ("" +:+ ?x) with x.
    assert (rstrip (String c (sub_spaces false rest))
            = join " " (words (String c rest))) as ->; [|done].
    cbn [rstrip]. rewrite IHf, Hc.
    destruct rest as [|d rest']; [cbn; by rewrite Hc|].
    cbn [starts_with_space]. cbn [words]. rewrite Hc.
    destruct (isspace d) eqn:Hd.
    + cbn [andb].
      destruct (words rest') as [|w ws] eqn:Ew.
      * by rewrite bool_decide_eq_false_2 by (by intros []).
      * rewrite bool_decide_eq_true_2 by done.
        pose proof (words_are_words rest') as Hall. rewrite Ew in Hall.
        apply Forall_cons in Hall as [[Hw _] _].
        destruct w; [done|]. cbn. by destruct ws.
    + cbn [andb]. change ("" +:+ ?x) with x.
      destruct (words_nonspace_head d rest' Hd) as (w & ws & Ew).
      cbn [words] in Ew. rewrite Hd in Ew.
      rewrite Ew. rewrite !join_cons_char. done.
Qed.

Lemma lstrip_sub_spaces text :
  lstrip (sub_spaces false text) = sub_spaces true text.
Proof.
  assert (Hfix : ∀ t, lstrip (sub_spaces true t) = sub_spaces true t).
  { induction t as [|c rest IH]; [done|]. cbn [sub_spaces].
    destruct (isspace c) eqn:Hc; [done|]. cbn [lstrip]. by rewrite Hc. }
  destruct text as [|c rest]; [done|]. cbn [sub_spaces].
  destruct (isspace c) eqn:Hc.
  - cbn [lstrip].
    change (isspace " ") with true. cbn iota. apply Hfix.
  - cbn [lstrip]. by rewrite Hc.
Qed.

(** [clean_tweet_text(text)] is [' '.join(text.split())]. *)
Lemma clean_tweet_text_join_words text :
  clean_tweet_text text = join " " (words text).
Proof.
  unfold clean_tweet_text, strip. rewrite lstrip_sub_spaces.
  apply rstrip_sub_spaces.
Qed.


Lemma append_empty_r s : s +:+ EmptyString = s.
Proof.
  induction s as [|c s IH]; [done|].
  change (String c (s +:+ EmptyString) = String c s). by rewrite IH.
Qed.

Lemma words_one_word w rest :
  is_word w → starts_with_space rest = true ∨ rest = EmptyString →
  words (w +:+ rest) = w :: words rest.
Proof.
  intros [Hne Hw] Hrest. induction w as [|c w IH]; [done|].
  cbn in Hw. apply andb_true_iff in Hw as [Hc Hw].
  apply negb_true_iff in Hc.
  change (String c w +:+ rest) with (String c (w +:+ rest)).
  cbn [words]. rewrite Hc.
  destruct w as [|d w'].
  - change ("" +:+ rest) with rest.
    destruct Hrest as [Hs| ->]; [|done].
    destruct rest as [|e rest']; [done|]. cbn in Hs. by rewrite Hs.
  - change (String d w' +:+ rest) with (String d (w' +:+ rest)) in *.
    cbn in Hw. apply andb_true_iff in Hw as [Hd Hw'].
    apply negb_true_iff in Hd. rewrite Hd.
    rewrite IH; [done|done|]. cbn. by rewrite Hd, Hw'.
Qed.

(** Splitting a string made of words joined by single spaces gives the
    words back. *)
Lemma words_join parts :
  Forall is_word parts → words (join " " parts) = parts.
Proof.
  induction parts as [|w ws IH]; [done|].
  intros Hall. apply Forall_cons in Hall as [Hw Hws].
  destruct ws as [|w' ws'].
  - cbn [join]. rewrite <- (append_empty_r w) at 1.
    rewrite words_one_word; auto.
  - change (join " " (w :: w' :: ws'))
      with (w +:+ String " " (join " " (w' :: ws'))).
    rewrite words_one_word; [|done|by left].
    f_equal. change (words (String " " ?x)) with (words x). by apply IH.
Qed.

Lemma visible_sub_spaces text : ∀ in_run,
  visible (sub_spaces in_run text) = visible text.
Proof.
  induction text as [|c rest IH]; intros in_run; [done|].
  cbn [sub_spaces visible]. destruct (isspace c) eqn:Hc.
  - destruct in_run; [apply IH|].
    cbn [visible]. change (isspace " ") with true. cbn iota. apply IH.
  - cbn [visible]. by rewrite Hc, IH.
Qed.

Lemma visible_lstrip text : visible (lstrip text) = visible text.
Proof.
  induction text as [|c rest IH]; [done|].
  cbn [lstrip visible]. destruct (isspace c) eqn:Hc; [done|].
  cbn [visible]. by rewrite Hc.
Qed.

Lemma visible_rstrip text : visible (rstrip text) = visible text.
Proof.
  induction text as [|c rest IH]; [done|].
  cbn [rstrip visible]. rewrite <- IH.
  destruct (rstrip rest) eqn:E.
  - destruct (isspace c) eqn:Hc; [done|]. cbn. by rewrite Hc.
  - cbn [visible]. by destruct (isspace c).
Qed.

Lemma visible_empty_words text :
  visible text = EmptyString ↔ words text = [].
Proof.
  induction text as [|c rest IH]; [done|].
  cbn [visible]. destruct (isspace c) eqn:Hc.
  - cbn [words]. by rewrite Hc.
  - destruct (words_nonspace_head c rest Hc) as (w & ws & ->). done.
Qed.

Lemma clean_join_fixed parts :
  Forall is_word parts →
  clean_tweet_text (join " " parts) = join " " parts.
Proof.
  intros Hall. by rewrite clean_tweet_text_join_words, words_join.
Qed.

Lemma clean_tweet_text_twice text :
  clean_tweet_text (clean_tweet_text text) = clean_tweet_text text.
Proof.
  rewrite (clean_tweet_text_join_words text).
  apply clean_join_fixed, words_are_words.
Qed.

End CleanFacts.

(** ** Splitting a link *)

Module SplitFacts.
Import Text WordSpec.

Lemma split_nonempty sep text : split sep text ≠ [].
Proof.
  destruct text as [|c rest]; [done|]. cbn [split].
  destruct (Ascii.eqb c sep); [done|]. by destruct (split sep rest).
Qed.

(** Joining the pieces with the separator gives the string back. *)
Lemma join_split sep text :
  join (String sep EmptyString) (split sep text) = text.
Proof.
  induction text as [|c rest IH]; [done|]. cbn [split].
  pose proof (split_nonempty sep rest) as Hne.
  destruct (Ascii.eqb_spec c sep) as [->|Hc].
  - destruct (split sep rest) as [|w ws]; [done|].
    cbn [join] in IH |- *. by rewrite IH.
  - destruct (split sep rest) as [|w ws]; [done|].
    rewrite <- IH. cbn [join]. by destruct ws.
Qed.

Lemma split_no_sep sep text : Forall (no_char sep) (split sep text).
Proof.
  induction text as [|c rest IH]; [by repeat constructor|].
  cbn [split]. destruct (Ascii.eqb c sep) eqn:Hc; [by constructor|].
  destruct (split sep rest) as [|w ws].
  - repeat constructor. unfold no_char. cbn. by rewrite Hc.
  - apply Forall_cons in IH as [Hw Hws]. constructor; [|done].
    unfold no_char in *. cbn. by rewrite Hc.
Qed.

Lemma append_assoc s1 s2 s3 : (s1 +:+ s2) +:+ s3 = s1 +:+ (s2 +:+ s3).
Proof.
  induction s1 as [|c s1 IH]; [done|].
  change (String c ((s1 +:+ s2) +:+ s3) = String c (s1 +:+ (s2 +:+ s3))).
  by rewrite IH.
Qed.

Lemma join_last sep parts :
  parts ≠ [] →
  join sep parts = List.last parts EmptyString
  ∨ ∃ pre, join sep parts = pre +:+ sep +:+ List.last parts EmptyString.
Proof.
  induction parts as [|w ws IH]; [done|]. intros _.
  destruct ws as [|w' ws']; [by left|]. right.
  change (join sep (w :: w' :: ws'))
    with (w +:+ sep +:+ join sep (w' :: ws')).
  change (List.last (w :: w' :: ws') EmptyString)
    with (List.last (w' :: ws') EmptyString).
  destruct IH as [->|(pre & ->)]; [done| |].
  - by exists w.
  - exists (w +:+ sep +:+ pre). by rewrite !append_assoc.
Qed.

(** The last piece is what follows the last separator. *)
Lemma last_split sep text :
  no_char sep (List.last (split sep text) EmptyString)
  ∧ (text = List.last (split sep text) EmptyString
     ∨ ∃ pre, text = pre +:+ String sep EmptyString
                     +:+ List.last (split sep text) EmptyString).
Proof.
  split.
  - pose proof (split_no_sep sep text) as Hall.
    pose proof (split_nonempty sep text) as Hne.
    induction (split sep text) as [|w ws IH]; [done|].
    apply Forall_cons in Hall as [Hw Hws].
    destruct ws as [|w' ws']; [done|]. by apply IH.
  - destruct (join_last (String sep EmptyString) (split sep text)
                (split_nonempty sep text)) as [H|(pre & H)];
      rewrite join_split in H; [by left|right; by exists pre].
Qed.

End SplitFacts.

Import Text WordSpec CleanFacts SplitFacts.

(** ** [clean_tweet_text] *)

(** X1: [clean_tweet_text(text)] is [' '.join(text.split())]: the words
    of the text, each non-empty and free of whitespace, with one space
    between neighbours. *)
Theorem clean_tweet_text_is_join_of_words text :
  clean_tweet_text text = join " " (words text)
  ∧ Forall is_word (words text).
Proof. split; [apply clean_tweet_text_join_words | apply words_are_words]. Qed.

(** X2: cleaning twice is cleaning once, and a text that already is a
    list of words joined by single spaces is left as it is. *)
Theorem clean_tweet_text_idempotent text :
  clean_tweet_text (clean_tweet_text text) = clean_tweet_text text
  ∧ ∀ parts, Forall is_word parts →
             clean_tweet_text (join " " parts) = join " " parts.
Proof. split; [apply clean_tweet_text_twice | apply clean_join_fixed]. Qed.

Lemma clean_tweet_text_idempotent_witness :
  clean_tweet_text "No text found" = "No text found".
Proof.
  apply (proj2 (clean_tweet_text_idempotent EmptyString)
           ["No"; "text"; "found"]).
  repeat constructor; done.
Defined.

(** X3: cleaning removes whitespace only: the other characters are kept,
    in order; the result is empty exactly when the text is all
    whitespace. *)
Theorem clean_tweet_text_keeps_visible text :
  visible (clean_tweet_text text) = visible text
  ∧ (clean_tweet_text text = EmptyString ↔ visible text = EmptyString).
Proof.
  split.
  - unfold clean_tweet_text, strip.
    by rewrite visible_rstrip, visible_lstrip, visible_sub_spaces.
  - rewrite clean_tweet_text_join_words, visible_empty_words.
    apply join_empty_iff, words_are_words.
Qed.

(** ** [extract_tweet_data] *)

Lemma extract_tweet_id_link article :
  extract_tweet_id (find "time" [] article)
  = match enclosing_link article with
    | Some link =>
        if truthy link
        then List.last (split "/" link) EmptyString else Unknown
    | None => Unknown
    end.
Proof.
  unfold extract_tweet_id, enclosing_link.
  destruct (find "time" [] article) as [t|]; [|done]. cbn.
  destruct (parent t) as [p|]; [|done]. cbn.
  destruct (parent p) as [g|]; [|done]. cbn.
  by destruct (get g "href").
Qed.

(** X4: extraction gives up on a fragment in two cases only: a time
    element without a [datetime] attribute, and a statistic whose first
    run of digits is longer than [int] converts; every other fragment,
    whatever it lacks, yields a record. *)
Theorem extraction_fails_in_two_cases article username :
  extract_tweet_data article username = None
  ↔ (∃ t, find "time" [] article = Some t ∧ get t "datetime" = None)
    ∨ stat_overflow article.
Proof. apply extract_tweet_data_None. Qed.

(** A counter of 4301 digits makes the extraction of an otherwise
    complete post fail. *)
Example extract_tweet_data_long_count :
  extract_tweet_data (Samples.fragment [MoreSamples.long_count_post] 0)
    "alice" = None.
Proof. by vm_compute. Qed.

(** X5: the record of a fragment with no time element has "Unknown" for
    its timestamp, its id and its address; and such a fragment yields a
    record unless one of its statistics cannot be converted. *)
Theorem extraction_without_time_element article username :
  find "time" [] article = None →
  (∀ t, extract_tweet_data article username = Some t →
        timestamp t = Unknown ∧ tweet_id t = Unknown ∧ url t = Unknown)
  ∧ (¬ stat_overflow article →
     ∃ t, extract_tweet_data article username = Some t).
Proof.
  intros Hf. destruct (extract_tweet_data_no_time article username Hf)
    as [H1 H2].
  split; [done|]. intros Hno. by destruct (H2 Hno) as [t ->]; eauto.
Qed.

Lemma extraction_without_time_element_witness :
  ∃ t, extract_tweet_data
         (Samples.fragment [MoreSamples.anonymous_post "hello"] 0) "alice"
       = Some t
       ∧ timestamp t = Unknown ∧ tweet_id t = Unknown ∧ url t = Unknown.
Proof.
  destruct (extraction_without_time_element
              (Samples.fragment [MoreSamples.anonymous_post "hello"] 0)
              "alice") as [H1 H2]; [reflexivity|].
  destruct H2 as [t Ht].
  - intros (i & el & _ & Hel & _). by vm_compute in Hel.
  - exists t. split; [done|]. by apply H1.
Defined.

(** X6: the id of a record is what follows the last "/" of the link two
    levels above the time element, so it never contains a "/"; without
    such a link, or with an empty one, it is "Unknown". *)
Theorem record_id_is_last_link_segment article username t :
  extract_tweet_data article username = Some t →
  no_char "/" (tweet_id t)
  ∧ match enclosing_link article with
    | Some link =>
        if truthy link then last_segment_of link (tweet_id t)
        else tweet_id t = Unknown
    | None => tweet_id t = Unknown
    end.
Proof.
  intros H. apply extract_tweet_data_Some in H as (_ & -> & _).
  rewrite extract_tweet_id_link.
  destruct (enclosing_link article) as [link|]; [|done].
  destruct (truthy link); [|done].
  destruct (last_split "/" link) as [H1 H2]. by split.
Qed.

Lemma record_id_is_last_link_segment_witness :
  let t :=
    {| tweet_id := ""; timestamp := "2024-05-01T10:00:00.000Z";
       text := "No text found"; replies := 0; retweets := 0; likes := 0;
       url := "https://twitter.com/alice/status/" |} in
  no_char "/" (tweet_id t)
  ∧ last_segment_of "/alice/status/" (tweet_id t).
Proof.
  intros t.
  apply (record_id_is_last_link_segment
           (Samples.fragment [MoreSamples.slash_post] 0) "alice" t).
  reflexivity.
Defined.

(** X7: a record has an address exactly when its id is known, and the
    address is then built from the subject and the id. *)
Theorem record_url_iff_known_id article username t :
  extract_tweet_data article username = Some t →
  (tweet_id t ≠ Unknown → url t = status_url username (tweet_id t))
  ∧ (url t = Unknown ↔ tweet_id t = Unknown).
Proof.
  intros H. apply extract_tweet_data_url in H. rewrite H.
  case_bool_decide as Hk.
  - split; [done|]. split; [done|]. intros E. by rewrite E in Hk.
  - done.
Qed.

Lemma record_url_iff_known_id_witness :
  let t :=
    {| tweet_id := "101"; timestamp := "2024-05-01T10:00:00.000Z";
       text := "first post"; replies := 1; retweets := 0; likes := 7;
       url := "https://twitter.com/alice/status/101" |} in
  (tweet_id t ≠ Unknown → url t = status_url "alice" (tweet_id t))
  ∧ (url t = Unknown ↔ tweet_id t = Unknown).
Proof.
  intros t.
  apply (record_url_iff_known_id (Samples.fragment [Samples.post1] 0)
           "alice" t).
  reflexivity.
Defined.

(** X8: the subject's name enters the address and nothing else: it is
    never compared with the link, and two extractions of one fragment
    under different names agree on every other field. *)
Theorem username_only_enters_url article username1 username2 t1 :
  extract_tweet_data article username1 = Some t1 →
  ∃ t2, extract_tweet_data article username2 = Some t2
        ∧ tweet_id t2 = tweet_id t1 ∧ timestamp t2 = timestamp t1
        ∧ text t2 = text t1 ∧ replies t2 = replies t1
        ∧ retweets t2 = retweets t1 ∧ likes t2 = likes t1.
Proof.
  intros H1.
  destruct (extract_tweet_data article username2) as [t2|] eqn:H2.
  - exists t2. split; [done|].
    apply extract_tweet_data_Some in H1 as (-> & -> & -> & -> & -> & ->).
    apply extract_tweet_data_Some in H2 as (-> & -> & -> & -> & -> & ->).
    done.
  - apply extract_tweet_data_None in H2.
    apply (extract_tweet_data_None article username1) in H2. congruence.
Qed.

Lemma username_only_enters_url_witness :
  ∃ t2, extract_tweet_data (Samples.fragment [Samples.post1] 0) "bob"
        = Some t2
        ∧ tweet_id t2 = "101"
        ∧ timestamp t2 = "2024-05-01T10:00:00.000Z"
        ∧ text t2 = "first post" ∧ replies t2 = 1
        ∧ retweets t2 = 0 ∧ likes t2 = 7.
Proof.
  apply (username_only_enters_url (Samples.fragment [Samples.post1] 0)
           "alice" "bob"
           {| tweet_id := "101"; timestamp := "2024-05-01T10:00:00.000Z";
              text := "first post"; replies := 1; retweets := 0;
              likes := 7; url := "https://twitter.com/alice/status/101" |}).
  reflexivity.
Defined.

(** X9: the text of a record is always in cleaned form: cleaning it
    again changes nothing, be it the cleaned content of the text
    container or the sentinel "No text found". *)
Theorem record_text_is_clean article username t :
  extract_tweet_data article username = Some t →
  clean_tweet_text (text t) = text t.
Proof.
  intros H. apply extract_tweet_data_Some in H as (_ & _ & -> & _).
  destruct (find "div" _ article); [|reflexivity].
  apply clean_tweet_text_twice.
Qed.

Lemma record_text_is_clean_witness :
  clean_tweet_text "first post" = "first post".
Proof.
  apply (record_text_is_clean (Samples.fragment [Samples.post1] 0) "alice"
           {| tweet_id := "101"; timestamp := "2024-05-01T10:00:00.000Z";
              text := "first post"; replies := 1; retweets := 0;
              likes := 7; url := "https://twitter.com/alice/status/101" |}).
  reflexivity.
Defined.

(** ** The deduplication step *)

Lemma index_counts_accept st t :
  ¬ rejected st t → index_counts st → index_counts (accept st t).
Proof.
  unfold rejected. intros Hr (Ht & Hi & Hu). unfold index_counts, accept.
  cbn [tweets unique_tweet_ids unique_tweet_texts].
  rewrite length_app, filter_app, length_app. cbn [length].
  split_and!.
  - rewrite size_union by set_solver. rewrite size_singleton. lia.
  - rewrite filter_cons, filter_nil. case_bool_decide as Hk.
    + rewrite decide_True by done.
      rewrite size_union by set_solver. rewrite size_singleton.
      cbn [length]. lia.
    + rewrite decide_False by (intros ?; done). cbn [length]. lia.
  - case_bool_decide; set_solver.
Qed.

Lemma process_article_counts username st article :
  index_counts st → index_counts (process_article username st article).
Proof.
  intros H. rewrite process_article_unfold.
  destruct (extract_tweet_data article username); [|done].
  case_decide; [done|]. by apply index_counts_accept.
Qed.

Lemma process_articles_counts username articles : ∀ st,
  index_counts st → index_counts (process_articles username st articles).
Proof.
  induction articles as [|a l IH]; intros st H; [done|].
  rewrite process_articles_cons. by apply IH, process_article_counts.
Qed.

(** X10: a record whose id is unknown is judged by its text alone and
    leaves the seen ids untouched: of two such records in a row, both
    are accepted when their texts differ, only the first when they are
    equal. *)
Theorem unknown_ids_fall_back_to_text username st a b ta tb :
  extract_tweet_data a username = Some ta →
  extract_tweet_data b username = Some tb →
  tweet_id ta = Unknown → tweet_id tb = Unknown →
  text ta ∉ unique_tweet_texts st → text tb ∉ unique_tweet_texts st →
  tweets (process_articles username st [a; b])
  = tweets st ++ (if decide (text ta = text tb) then [ta] else [ta; tb])
  ∧ unique_tweet_ids (process_articles username st [a; b])
    = unique_tweet_ids st.
Proof.
  intros Ea Eb Ha Hb Hta Htb.
  unfold process_articles. cbn [foldl].
  rewrite (process_article_accepted username st a ta Ea)
    by (unfold rejected; rewrite Ha; tauto).
  case_decide as He.
  - rewrite (process_article_rejected username _ b tb Eb).
    + unfold accept; cbn. rewrite Ha. by case_bool_decide.
    + right. rewrite <- He. unfold accept; cbn. set_solver.
  - rewrite (process_article_accepted username _ b tb Eb).
    + unfold accept; cbn. rewrite Ha, Hb, <- app_assoc.
      by case_bool_decide.
    + unfold rejected, accept; cbn. rewrite Hb. set_solver.
Qed.

Lemma unknown_ids_fall_back_to_text_witness :
  let a := Samples.fragment [MoreSamples.anonymous_post "hello";
                             MoreSamples.anonymous_post "world"] 0 in
  let b := Samples.fragment [MoreSamples.anonymous_post "hello";
                             MoreSamples.anonymous_post "world"] 1 in
  text <$> tweets (process_articles "alice" initial_state [a; b])
  = ["hello"; "world"]
  ∧ unique_tweet_ids (process_articles "alice" initial_state [a; b]) = ∅.
Proof.
  intros a b.
  destruct (unknown_ids_fall_back_to_text "alice" initial_state a b
              {| tweet_id := "Unknown"; timestamp := "Unknown";
                 text := "hello"; replies := 0; retweets := 0; likes := 0;
                 url := "Unknown" |}
              {| tweet_id := "Unknown"; timestamp := "Unknown";
                 text := "world"; replies := 0; retweets := 0; likes := 0;
                 url := "Unknown" |}) as [H1 H2];
    [reflexivity | reflexivity | reflexivity | reflexivity
    | by vm_compute | by vm_compute |].
  split; [by rewrite H1 | exact H2].
Defined.

(** ** The scroll loop *)

Section MoreLoop.

Variable env : Env.
Variable username : string.
Variable search_query : option string.
Variable max_scrolls : Z.
Variable scroll_pause_time : float.
Variable scroll_variation : float.

Local Abbreviation cycle :=
  (scroll_cycle env username scroll_pause_time scroll_variation).
Local Abbreviation pause :=
  (pause_length env scroll_pause_time scroll_variation).
Local Abbreviation loop :=
  (scrape_loop env username max_scrolls scroll_pause_time
     scroll_variation).
Local Abbreviation entry := (loop_entry env username search_query).
Local Abbreviation after :=
  (after_cycles env username search_query scroll_pause_time
     scroll_variation).
Local Abbreviation run :=
  (scrape_tweets env username search_query max_scrolls scroll_pause_time
     scroll_variation).

Lemma scroll_cycle_counts st :
  index_counts st → index_counts (cycle st).2.
Proof.
  intros H.
  destruct (scroll_cycle_scanned env username scroll_pause_time
              scroll_variation st) as (Ht & Hi & Hx & _).
  unfold index_counts. rewrite Ht, Hi, Hx. unfold scanned.
  apply process_articles_counts. by destruct (_ =? _)%nat.
Qed.

(** X11: at every point of a run the index has exactly one seen text per
    accepted record and one seen id per accepted record with a known
    id, and "Unknown" is never among the seen ids. *)
Theorem index_counts_throughout n :
  index_counts
    (after_cycles env username search_query scroll_pause_time
       scroll_variation n).
Proof.
  induction n as [|n IH].
  - destruct (loop_entry_fields env username search_query)
      as (Ht & Hi & Hx & _).
    change (after 0) with entry. unfold index_counts.
    rewrite Ht, Hi, Hx. split_and!; [done|done|set_solver].
  - rewrite after_cycles_succ. by apply scroll_cycle_counts.
Qed.

(** X12: [new_tweets_found] is, after a cycle, the number of records the
    cycle appended. *)
Theorem new_tweets_found_counts_appended st :
  let st' :=
    (scroll_cycle env username scroll_pause_time scroll_variation st).2 in
  ∃ new, tweets st' = tweets st ++ new
         ∧ new_tweets_found st' = length new.
Proof.
  cbn zeta.
  destruct (scroll_cycle_scanned env username scroll_pause_time
              scroll_variation st) as (-> & _ & _ & -> & _).
  destruct (scanned_tweets env username st) as (new & H1 & _ & H2).
  eauto.
Qed.

(** X13: when the timeline does not load, or the budget is zero or
    negative, the result is the empty list and the page is never read. *)
Theorem nothing_scraped_without_timeline_or_budget :
  timeline_loaded env = false ∨ max_scrolls ≤ 0 →
  ∃ st, scrape_tweets env username search_query max_scrolls
          scroll_pause_time scroll_variation = Some (Ok [], st)
        ∧ cycles_started st = 0%nat ∧ scroll_count st = 0%nat.
Proof.
  intros H. rewrite scrape_tweets_eq.
  destruct (loop_entry_fields env username search_query)
    as (Ht & _ & _ & Hc & _ & _ & Hs).
  destruct (timeline_loaded env) eqn:Hl.
  - destruct H as [H|H]; [done|].
    rewrite scrape_loop_done by (rewrite Hc; lia).
    rewrite Ht. eauto.
  - rewrite Ht. eauto.
Qed.

End MoreLoop.

Lemma nothing_scraped_without_timeline_or_budget_witness :
  ∃ st,
    scrape_tweets (Samples.browser Samples.growing_page) "alice" None 0
      (5 # 2) 1 = Some (Ok [], st)
    ∧ cycles_started st = 0%nat ∧ scroll_count st = 0%nat.
Proof.
  apply (nothing_scraped_without_timeline_or_budget
           (Samples.browser Samples.growing_page) "alice" None 0 (5 # 2) 1).
  right. lia.
Defined.

(** ** The trace and the end of a run *)

Section MoreRun.

Variable env : Env.
Variable username : string.
Variable search_query : option string.
Variable max_scrolls : Z.
Variable scroll_pause_time : float.
Variable scroll_variation : float.

Local Abbreviation cycle :=
  (scroll_cycle env username scroll_pause_time scroll_variation).
Local Abbreviation pause :=
  (pause_length env scroll_pause_time scroll_variation).
Local Abbreviation loop :=
  (scrape_loop env username max_scrolls scroll_pause_time
     scroll_variation).
Local Abbreviation entry := (loop_entry env username search_query).
Local Abbreviation after :=
  (after_cycles env username search_query scroll_pause_time
     scroll_variation).
Local Abbreviation run :=
  (scrape_tweets env username search_query max_scrolls scroll_pause_time
     scroll_variation).

Lemma scroll_cycle_events st :
  events (cycle st).2
  = events st
    ++ cycle_trace env scroll_pause_time scroll_variation (scroll_count st)
         (if sleep_refusal (pause (scroll_count st)) is None
          then true else false).
Proof.
  rewrite scroll_cycle_eq. cbn zeta. unfold cycle_trace, scanned.
  match goal with |- context [process_articles _ ?s ?l] =>
    destruct (process_articles_frame username l s) as (_ & _ & He) end.
  destruct (sleep_refusal _); cbn [snd events add_event set_scroll_count
    set_consecutive_no_new_tweets]; rewrite He;
    destruct (_ =? _)%nat; cbn [events add_event set_new_tweets_found];
    by rewrite <- ?app_assoc.
Qed.

(** A cycle that ends without an exception had its pause accepted. *)
Lemma scroll_cycle_Ok_pause st b st' :
  cycle st = (Ok b, st') →
  sleep_refusal (pause (scroll_count st)) = None.
Proof.
  intros E. destruct (sleep_refusal (pause (scroll_count st))) as [e|] eqn:H;
    [|done].
  destruct (scroll_cycle_raise env username scroll_pause_time
              scroll_variation st e H) as (E' & _). congruence.
Qed.

Lemma loop_entry_events :
  nudges entry = 0%nat
  ∧ count_events is_get entry = (if login_wall env then 2 else 1)%nat
  ∧ count_events is_scroll_to_bottom entry = 0%nat.
Proof.
  unfold loop_entry, open_timeline, emit, sleep, nudges, count_events.
  unfold mbind, M_bind, mret, M_ret, modify. cbn.
  by destruct (login_wall env), (timeline_loaded env).
Qed.

(** X17: the target address is requested before the loop and never
    again, once, or twice when a login wall was met; each cycle reads
    the page once and scrolls to the bottom once. *)
Theorem one_navigation_one_scroll_per_cycle n :
  let st :=
    after_cycles env username search_query scroll_pause_time
      scroll_variation n in
  count_events is_get st = (if login_wall env then 2 else 1)%nat
  ∧ cycles_started st = n
  ∧ count_events is_scroll_to_bottom st = n.
Proof.
  cbn zeta. split_and!; [| apply after_cycles_started |].
  - induction n as [|n IH]; [apply loop_entry_events|].
    rewrite <- IH. rewrite after_cycles_succ. unfold count_events.
    rewrite scroll_cycle_events. unfold cycle_trace.
    rewrite !List.filter_app, !length_app.
    destruct (_ =? _)%nat, (sleep_refusal _); cbn; lia.
  - induction n as [|n IH]; [apply loop_entry_events|].
    rewrite <- IH at 2. rewrite after_cycles_succ. unfold count_events.
    rewrite scroll_cycle_events. unfold cycle_trace.
    rewrite !List.filter_app, !length_app.
    destruct (_ =? _)%nat, (sleep_refusal _); cbn; lia.
Qed.

Lemma nudges_succ n :
  scroll_count (after n) = n →
  nudges (after (S n))
  = (nudges (after n) + (if (n mod 10 =? 0)%nat then 1 else 0))%nat.
Proof.
  intros Hn. rewrite after_cycles_succ. unfold nudges.
  rewrite scroll_cycle_events, Hn. unfold cycle_trace.
  rewrite !List.filter_app, !length_app.
  destruct (n mod 10 =? 0)%nat, (sleep_refusal (pause n)); cbn; lia.
Qed.

(** The scroll counter never runs ahead of the cycles, and when it has
    kept up with them so far it had kept up all along. *)
Lemma after_cycles_scroll_count_le n : (scroll_count (after n) ≤ n)%nat.
Proof.
  induction n as [|n IH].
  - destruct (loop_entry_fields env username search_query)
      as (_ & _ & _ & Hc & _).
    change (after 0) with entry. lia.
  - rewrite after_cycles_succ.
    destruct (scroll_cycle_cases env username scroll_pause_time
                scroll_variation (after n)) as [[_ ->]|(e & _ & ->)]; lia.
Qed.

Lemma after_cycles_scroll_count_full n :
  scroll_count (after n) = n →
  ∀ k, (k ≤ n)%nat → scroll_count (after k) = k.
Proof.
  induction n as [|n IH]; intros Hn k Hk.
  - replace k with 0%nat by lia. done.
  - destruct (decide (k = S n)) as [->|]; [done|].
    apply IH; [|lia].
    pose proof (after_cycles_scroll_count_le n) as Hle.
    rewrite after_cycles_succ in Hn.
    destruct (scroll_cycle_cases env username scroll_pause_time
                scroll_variation (after n)) as [[_ E]|(e & _ & E)];
      rewrite E in Hn; lia.
Qed.

(** X16: the random scroll happens at the cycles that start with a
    multiple of 10 scrolls done: when [n] cycles have been completed
    there have been [ceil (n / 10)] of them; its pause lasts at least 1
    and at most 3. *)
Theorem nudge_every_ten_cycles n :
  scroll_count (after_cycles env username search_query scroll_pause_time
                  scroll_variation n) = n →
  nudges (after_cycles env username search_query scroll_pause_time
            scroll_variation n) = ((n + 9) / 10)%nat
  ∧ ∀ draw, ∃ secs,
      uniform 1 3 draw = Float.Finite secs
      ∧ (1 <= secs)%Q ∧ (secs <= 3)%Q.
Proof.
  intros Hn. split.
  - pose proof (after_cycles_scroll_count_full n Hn) as Hall. clear Hn.
    induction n as [|n IH]; [apply loop_entry_events|].
    rewrite nudges_succ by (apply Hall; lia).
    rewrite IH by (intros; apply Hall; lia).
    pose proof (Nat.div_mod_eq n 10) as Hd.
    pose proof (Nat.mod_upper_bound n 10 ltac:(lia)) as Hu.
    destruct (Nat.eqb_spec (n mod 10) 0) as [E|E].
    + rewrite <- (Nat.div_unique (n + 9) 10 (n / 10) 9) by lia.
      rewrite <- (Nat.div_unique (S n + 9) 10 (S (n / 10)) 0) by lia.
      lia.
    + rewrite <- (Nat.div_unique (n + 9) 10 (S (n / 10)) (n mod 10 - 1))
        by lia.
      rewrite <- (Nat.div_unique (S n + 9) 10 (S (n / 10)) (n mod 10))
        by lia.
      lia.
  - apply uniform_1_3.
Qed.

Lemma idle_since_succ n b st' :
  scroll_count (after n) = n →
  cycle (after n) = (Ok b, st') →
  idle_since env username search_query scroll_pause_time scroll_variation n →
  st' = after (S n) ∧ scroll_count (after (S n)) = S n
  ∧ b = (5 <=? consecutive_no_new_tweets (after (S n)))%nat
  ∧ (consecutive_no_new_tweets (after (S n))
     ≤ S (consecutive_no_new_tweets (after n)))%nat
  ∧ idle_since env username search_query scroll_pause_time
      scroll_variation (S n).
Proof.
  intros Hn E [H1 H2].
  pose proof (scroll_cycle_Ok_pause _ _ _ E) as Hp.
  destruct (scroll_cycle_ok env username scroll_pause_time
              scroll_variation (after n) Hp) as (E' & Hc & Hi).
  destruct (scroll_cycle_scanned env username scroll_pause_time
              scroll_variation (after n)) as (Ht & _ & _ & Hf & _).
  destruct (scanned_tweets env username (after n)) as (new & Hn1 & _ & Hn2).
  rewrite <- after_cycles_succ in *.
  rewrite E in E'. injection E' as -> ->.
  split; [done|]. split; [lia|]. split; [done|].
  unfold idle_since. rewrite Hi.
  destruct (Nat.eqb_spec (new_tweets_found (after (S n))) 0) as [Hz|Hz].
  - split; [lia|]. split; [lia|].
    replace (S n - S (consecutive_no_new_tweets (after n)))%nat
      with (n - consecutive_no_new_tweets (after n))%nat by lia.
    rewrite H2, Ht, Hn1. rewrite Hf, Hn2 in Hz.
    destruct new; [by rewrite app_nil_r|done].
  - split; [lia|]. split; [lia|]. by rewrite Nat.sub_0_r.
Qed.

Lemma scrape_loop_idle_inv fuel : ∀ n st',
  scroll_count (after n) = n →
  (consecutive_no_new_tweets (after n) < 5)%nat →
  idle_since env username search_query scroll_pause_time scroll_variation n →
  loop fuel (after n) = Some (Ok (), st') →
  ∃ m, st' = after m
       ∧ idle_since env username search_query scroll_pause_time
           scroll_variation m
       ∧ (consecutive_no_new_tweets (after m) ≤ 5)%nat
       ∧ (Z.of_nat (scroll_count (after m)) < max_scrolls →
          consecutive_no_new_tweets (after m) = 5%nat).
Proof.
  induction fuel as [|fuel IH]; intros n st' Hn Hidle Hs H.
  - destruct (decide (Z.of_nat (scroll_count (after n)) < max_scrolls))
      as [Hg|Hg].
    + cbn in H. by rewrite bool_decide_eq_true_2 in H.
    + rewrite scrape_loop_done in H by done. injection H as <-.
      exists n. split_and!; [done|done|lia|done].
  - destruct (decide (Z.of_nat (scroll_count (after n)) < max_scrolls))
      as [Hg|Hg].
    2:{ rewrite scrape_loop_done in H by done. injection H as <-.
        exists n. split_and!; [done|done|lia|done]. }
    rewrite scrape_loop_step in H by done.
    destruct (cycle (after n)) as [[b|e] st0] eqn:E; [|done].
    destruct (idle_since_succ n b st0 Hn E Hs)
      as (-> & Hc & -> & Hle & Hs').
    destruct (Nat.leb_spec 5 (consecutive_no_new_tweets (after (S n))))
      as [H5|H5].
    + injection H as <-. exists (S n). split_and!; [done|done|lia|].
      intros _. lia.
    + by apply (IH (S n)).
Qed.

(** X14: a run that returns never lets the idle streak pass 5; and when
    the timeline has loaded and the run returns with scrolls of the
    budget left, the streak is exactly 5 and the five last cycles
    appended nothing to what is returned. *)
Theorem early_return_means_five_idle_cycles l st' :
  scrape_tweets env username search_query max_scrolls scroll_pause_time
    scroll_variation = Some (Ok l, st') →
  (consecutive_no_new_tweets st' ≤ 5)%nat
  ∧ (timeline_loaded env = true →
     Z.of_nat (scroll_count st') < max_scrolls →
     consecutive_no_new_tweets st' = 5%nat
     ∧ ∃ m, st' = after_cycles env username search_query
                    scroll_pause_time scroll_variation (m + 5)
            ∧ tweets (after_cycles env username search_query
                        scroll_pause_time scroll_variation m) = l).
Proof.
  rewrite scrape_tweets_eq.
  destruct (loop_entry_fields env username search_query)
    as (_ & _ & _ & Hc & Hi & _).
  destruct (timeline_loaded env).
  - destruct (loop _ _) as [[[[]|e] st2]|] eqn:E; [|done..].
    intros [= <- <-].
    change entry with (after 0) in *.
    apply scrape_loop_idle_inv in E as (m & -> & [H1 H2] & H3 & H4);
      [| done | lia | ].
    + split; [done|]. intros _ Hg. specialize (H4 Hg).
      split; [done|]. rewrite H4 in H1, H2.
      exists (m - 5)%nat. by replace (m - 5 + 5)%nat with m by lia.
    + split; [lia|]. by rewrite Hi.
  - intros [= <- <-]. split; [lia|done].
Qed.

Lemma scrape_loop_never_raises fuel : ∀ st r st',
  (∀ n, sleep_refusal (pause n) = None) →
  loop fuel st = Some (r, st') → r = Ok ().
Proof.
  induction fuel as [|fuel IH]; intros st r st' Hp H.
  - destruct (decide (Z.of_nat (scroll_count st) < max_scrolls)) as [Hg|Hg].
    + cbn in H. by rewrite bool_decide_eq_true_2 in H.
    + rewrite scrape_loop_done in H by done. by injection H as <-.
  - destruct (decide (Z.of_nat (scroll_count st) < max_scrolls)) as [Hg|Hg].
    2:{ rewrite scrape_loop_done in H by done. by injection H as <-. }
    rewrite scrape_loop_step in H by done.
    destruct (scroll_cycle_ok env username scroll_pause_time
                scroll_variation st (Hp _)) as (E & _).
    rewrite E in H. case_match; [by injection H as <-|]. by eapply IH.
Qed.

(** With no pause refused, the run returns a list. *)
Lemma scrape_tweets_returns :
  (∀ n, sleep_refusal (pause n) = None) →
  ∃ l st',
    scrape_tweets env username search_query max_scrolls scroll_pause_time
      scroll_variation = Some (Ok l, st').
Proof.
  intros Hp.
  destruct (scrape_tweets_total env username search_query max_scrolls
              scroll_pause_time scroll_variation) as [[r st'] E].
  rewrite E. rewrite scrape_tweets_eq in E.
  destruct (timeline_loaded env).
  - destruct (loop _ _) as [[r2 st2]|] eqn:E2; [|done].
    apply scrape_loop_never_raises in E2 as ->; [|done].
    injection E as <- <-. eauto.
  - injection E as <- <-. eauto.
Qed.

End MoreRun.

(** X15: with a variation between 0 and the base pause, and their sum
    within [sleep_bound], no pause is ever refused: the run returns a
    list, whatever the pages and the random draws. *)
Theorem no_exception_when_variation_below_pause env username search_query
    max_scrolls (scroll_pause_time scroll_variation : Q) :
  Float.is_double scroll_pause_time →
  Float.is_double scroll_variation →
  (0 <= scroll_variation)%Q → (scroll_variation <= scroll_pause_time)%Q →
  (scroll_pause_time + scroll_variation <= sleep_bound)%Q →
  ∃ l st',
    scrape_tweets env username search_query max_scrolls scroll_pause_time
      scroll_variation = Some (Ok l, st').
Proof.
  intros Hdb Hdv Hv Hle Hb. apply scrape_tweets_returns.
  intros n. by apply pause_accepted.
Qed.

Lemma nudge_every_ten_cycles_witness :
  nudges (after_cycles (Samples.browser Samples.growing_page) "alice" None
            (5 # 2) 1 11) = 2%nat.
Proof.
  destruct (nudge_every_ten_cycles (Samples.browser Samples.growing_page)
              "alice" None (5 # 2) 1 11) as [H _].
  - by vm_compute.
  - exact H.
Defined.

Lemma early_return_means_five_idle_cycles_witness :
  ∃ l st',
    scrape_tweets (Samples.browser Samples.settled_page) "alice" None 200
      (5 # 2) 1 = Some (Ok l, st')
    ∧ consecutive_no_new_tweets st' = 5%nat
    ∧ ∃ m, st' = after_cycles (Samples.browser Samples.settled_page)
                   "alice" None (5 # 2) 1 (m + 5)
           ∧ tweets (after_cycles (Samples.browser Samples.settled_page)
                       "alice" None (5 # 2) 1 m) = l.
Proof.
  eassert (E : scrape_tweets (Samples.browser Samples.settled_page) "alice"
                 None 200 (5 # 2) 1 = Some (Ok _, _))
    by (vm_compute; reflexivity).
  destruct (early_return_means_five_idle_cycles
              (Samples.browser Samples.settled_page) "alice" None 200
              (5 # 2) 1 _ _ E) as [_ H].
  destruct H as [H1 H2]; [reflexivity | by vm_compute |].
  eexists _, _. split; [exact E|]. split; [exact H1 | exact H2].
Defined.

Lemma no_exception_when_variation_below_pause_witness :
  ∃ l st',
    scrape_tweets (Samples.browser Samples.growing_page) "alice" None 200
      (5 # 2) 1 = Some (Ok l, st').
Proof.
  apply (no_exception_when_variation_below_pause
           (Samples.browser Samples.growing_page) "alice" None 200
           (5 # 2) 1); by vm_compute.
Defined.

(** ** The target address *)

Lemma no_char_app x s1 s2 :
  no_char x (s1 +:+ s2) ↔ no_char x s1 ∧ no_char x s2.
Proof.
  unfold no_char. induction s1 as [|c s1 IH]; [cbn; tauto|].
  change (String c s1 +:+ s2) with (String c (s1 +:+ s2)).
  cbn [all_chars]. rewrite !andb_true_iff, IH. tauto.
Qed.

Lemma replace_space_no_space text : no_char " " (replace_space text).
Proof.
  induction text as [|c rest IH]; [done|]. cbn [replace_space].
  destruct (Ascii.eqb c " ") eqn:Hc.
  - by apply no_char_app.
  - unfold no_char in *. cbn [all_chars]. by rewrite Hc, IH.
Qed.

(** X18: the address requested has no space in it as long as the
    subject's name has none: every space of the search query is
    replaced; and an empty query gives the same address as no query. *)
Theorem target_url_has_no_space username search_query :
  no_char " " username →
  no_char " " (target_url username search_query)
  ∧ target_url username (Some EmptyString) = target_url username None.
Proof.
  intros Hu. split; [|done]. unfold target_url.
  destruct search_query as [q|]; [destruct (truthy q)|];
    repeat (apply no_char_app; split);
    done || apply replace_space_no_space.
Qed.

Lemma target_url_has_no_space_witness :
  no_char " " (target_url "alice" (Some "rust lang news"))
  ∧ target_url "alice" (Some EmptyString) = target_url "alice" None.
Proof.
  apply (target_url_has_no_space "alice" (Some "rust lang news")).
  reflexivity.
Defined.

(** ** [process_json_input] *)

(** X19: what [process_json_input] answers is decided in this order.
    When [json.loads] raises its decoding error the answer is
    [ValueError] "Invalid JSON format"; any other exception of
    [json.loads] leaves the function as it is; a decoded value that is
    not a dictionary raises [AttributeError]; a dictionary whose
    "username" is missing or falsy (null, empty string, 0, false, empty
    list or dictionary) raises [ValueError] "Username is required in the
    JSON input"; every other input is answered with settings. *)
Theorem process_json_input_errors json_loads json_input :
  match json_loads json_input with
  | Config.JSONDecodeError =>
      Config.process_json_input json_loads json_input
      = Config.Raised (Config.ValueError "Invalid JSON format")
  | Config.LoadsRaised e =>
      Config.process_json_input json_loads json_input = Config.Raised e
  | Config.Decoded (Config.VDict fields) =>
      if Config.truthy (default Config.VNone (fields !! "username"))
      then ∃ settings,
             Config.process_json_input json_loads json_input
             = Config.Return settings
      else Config.process_json_input json_loads json_input
           = Config.Raised
               (Config.ValueError "Username is required in the JSON input")
  | Config.Decoded _ =>
      Config.process_json_input json_loads json_input
      = Config.Raised Config.AttributeError
  end.
Proof.
  unfold Config.process_json_input.
  destruct (json_loads json_input) as [[]| |e]; try done.
  cbn. destruct (Config.truthy _); [eauto|done].
Qed.

(** X20: the settings returned carry a truthy username, and each other
    entry is the value stored under its key, whatever it is, the default
    (no query, 200 scrolls, 2.5 time units) standing in only for a key
    that is absent: a key present with null stays null. *)
Theorem process_json_input_defaults json_loads json_input settings :
  Config.process_json_input json_loads json_input
  = Config.Return settings →
  ∃ fields,
    json_loads json_input = Config.Decoded (Config.VDict fields)
    ∧ fields !! "username" = Some (Config.username settings)
    ∧ Config.truthy (Config.username settings) = true
    ∧ Config.search_query settings
      = default Config.VNone (fields !! "search_query")
    ∧ Config.max_scrolls settings
      = default (Config.VInt 200) (fields !! "max_scrolls")
    ∧ Config.scroll_pause_time settings
      = default (Config.VFloat (5 # 2)) (fields !! "scroll_pause_time")
    ∧ (fields !! "max_scrolls" = Some Config.VNone →
       Config.max_scrolls settings = Config.VNone).
Proof.
  unfold Config.process_json_input.
  destruct (json_loads json_input) as [[]| |e]; try done.
  cbn. destruct (Config.truthy _) eqn:Ht; [|done].
  intros [= <-]. cbn. exists fields.
  destruct (fields !! "username") as [u|] eqn:Eu; [|done].
  split_and!; try done. by intros ->.
Qed.

Lemma process_json_input_defaults_witness :
  let json_loads := λ _ : string,
    Config.Decoded
      (Config.VDict {[ "username" := Config.VStr "alice";
                       "max_scrolls" := Config.VNone ]}) in
  let settings :=
    {| Config.username := Config.VStr "alice";
       Config.search_query := Config.VNone;
       Config.max_scrolls := Config.VNone;
       Config.scroll_pause_time := Config.VFloat (5 # 2) |} in
  ∃ fields,
    json_loads "settings" = Config.Decoded (Config.VDict fields)
    ∧ fields !! "username" = Some (Config.username settings)
    ∧ Config.truthy (Config.username settings) = true
    ∧ Config.search_query settings
      = default Config.VNone (fields !! "search_query")
    ∧ Config.max_scrolls settings
      = default (Config.VInt 200) (fields !! "max_scrolls")
    ∧ Config.scroll_pause_time settings
      = default (Config.VFloat (5 # 2)) (fields !! "scroll_pause_time")
    ∧ (fields !! "max_scrolls" = Some Config.VNone →
       Config.max_scrolls settings = Config.VNone).
Proof.
  intros json_loads settings.
  apply (process_json_input_defaults json_loads "settings" settings).
  reflexivity.
Defined.

(** ** [str.split] on the link *)

(** X21: splitting a link at "/" and joining the pieces with "/" gives
    the link back; there is always at least one piece, and no piece
    contains a "/". *)
Theorem split_join_round_trip sep text :
  join (String sep EmptyString) (split sep text) = text
  ∧ split sep text ≠ []
  ∧ Forall (no_char sep) (split sep text).
Proof.
  split_and!; [apply join_split | apply split_nonempty | apply split_no_sep].
Qed.
